(** * Production validation framework: a shallow embedding and its properties

    The development follows the Python sources of the validation framework:

    - [validate_production_readiness.py]: the orchestrator, its tally of test
      records and the final summary;
    - [api_tests/api_validator.py]: the recursive schema validator, the
      per-endpoint validation and endpoint discovery;
    - [performance_tests/load_tester.py]: the percentile helper, the load-test
      worker loop and the merge of the workers' partial results;
    - [config_validators/env_validator.py]: the environment file checker.

    Python dictionaries with a fixed set of keys are records with optional
    fields, dictionaries used as maps are [gmap]s or association lists (where
    the iteration order is observable), exceptions are an explicit error
    monad, and the outside world (HTTP responses, the clock, the file system)
    is passed in as data.  Python's [float] arithmetic is modelled by exact
    rationals. *)

From Stdlib Require Import QArith Qround Qabs Lia Lqa Ascii String.
From stdpp Require Import base option list strings gmap pretty sorting.

Set Warnings "-register-all".
Local Open Scope string_scope.

(** ** Python values and exceptions *)

Module Py.

(** The values a test record stores under [status] and [passed]. *)
Inductive PyVal :=
  | PNone
  | PBool (b : bool)
  | PInt (z : Z)
  | PStr (s : string).

#[global] Instance PyVal_eq_dec : EqDecision PyVal.
Proof. solve_decision. Defined.

(** [v == s] for a string literal [s]. *)
Definition eq_str (v : PyVal) (s : string) : bool := bool_decide (v = PStr s).

(** [v is True] and [v is False]: identity with the two boolean singletons. *)
Definition is_True (v : PyVal) : bool := bool_decide (v = PBool true).
Definition is_False (v : PyVal) : bool := bool_decide (v = PBool false).

(** [sub in s] on strings. *)
Definition str_in (sub s : string) : bool :=
  match String.index 0 sub s with Some _ => true | None => false end.

(** The exceptions the modelled code can raise. *)
Inductive PyExc :=
  | ZeroDivisionError
  | TypeError (what : string)
  | RequestException (what : string)
  | IndexError
  | ValueError (what : string)
  | OtherException (what : string).

(** A computation either returns a value or raises. *)
Inductive result (A : Type) :=
  | Ok (a : A)
  | Raise (e : PyExc).
Arguments Ok {A} a.
Arguments Raise {A} e.

#[global] Instance result_ret : MRet result := fun _ a => Ok a.
#[global] Instance result_bind : MBind result := fun _ _ f m =>
  match m with Ok a => f a | Raise e => Raise e end.

(** [a / b] on Python integers: true division, raising on a zero divisor. *)
Definition truediv (a b : Z) : result Q :=
  if bool_decide (b = 0%Z) then Raise ZeroDivisionError
  else Ok (inject_Z a / inject_Z b)%Q.

(** [int(x)] on a float: truncation towards zero. *)
Definition int_of_float (x : Q) : Z :=
  if Qle_bool 0 x then Qfloor x else Qceiling x.

(** [l[i]] for an integer [i]: negative indices count from the end, anything
    outside [-len(l) .. len(l) - 1] raises [IndexError]. *)
Definition getitem {A : Type} (l : list A) (i : Z) : result A :=
  let n := Z.of_nat (length l) in
  let j := if bool_decide (i < 0)%Z then (n + i)%Z else i in
  if bool_decide (0 <= j < n)%Z then
    match l !! Z.to_nat j with
    | Some x => Ok x
    | None => Raise IndexError
    end
  else Raise IndexError.

#[global] Instance Qle_dec : RelDecision Qle.
Proof.
  intros x y. destruct (Qle_bool x y) eqn:E.
  - left. by apply Qle_bool_iff.
  - right. intros H%Qle_bool_iff. congruence.
Defined.

(** The text of a float.  Floats are modelled by exact rationals, and the
    digits Python prints for a float depend on its binary value; the two
    renderings the code uses are therefore left open, and everything proved
    below holds for whatever they are. *)
Class FloatText := {
  (** [f"{x:.1f}"] *)
  format_1f : Q → string;
  (** [str(x)], also [f"{x}"] *)
  str_of_float : Q → string
}.

(** One rendering: the exact value, rounded half to even to one decimal.
    It is what Python prints for a float that holds exactly this value. *)
Definition exact_1f (x : Q) : string :=
  let scaled := (Qabs x * 10)%Q in
  let fl := Qfloor scaled in
  let frac := (scaled - inject_Z fl)%Q in
  let n :=
    match (frac ?= 1 # 2)%Q with
    | Lt => fl
    | Gt => (fl + 1)%Z
    | Eq => if Z.even fl then fl else (fl + 1)%Z
    end in
  (if Qle_bool 0 x then "" else "-")
  ++ pretty (n / 10)%Z ++ "." ++ pretty (n mod 10)%Z.

Definition exact_text : FloatText :=
  {| format_1f := exact_1f; str_of_float := exact_1f |}.

(** [str(e)] for an exception. *)
Definition str_of_exc (e : PyExc) : string :=
  match e with
  | ZeroDivisionError => "division by zero"
  | IndexError => "list index out of range"
  | TypeError what | RequestException what | ValueError what
  | OtherException what => what
  end.

(** [s.rstrip('/')]. *)
Fixpoint rstrip_slash (s : string) : string :=
  match s with
  | EmptyString => EmptyString
  | String c s' =>
      match rstrip_slash s' with
      | EmptyString => if bool_decide (c = "/"%char) then EmptyString
                       else String c EmptyString
      | t => String c t
      end
  end.

(** [str(n)] for an integer. *)
Definition str_of_int (n : Z) : string := pretty n.

(** [sum(data)]. *)
Definition qsum (data : list Q) : Q := foldr Qplus 0%Q data.

(** [sorted(data)] on floats. *)
Definition sorted (data : list Q) : list Q := merge_sort Qle data.

End Py.
Import Py.

(** ** The outside world: HTTP through the [requests] library *)

Module http.

(** A decoded response body.  A [dict] is kept as its list of items;
    [dict_get] reads it by key. *)
Inductive Json :=
  | JNone
  | JBool (b : bool)
  | JInt (z : Z)
  | JFloat (q : Q)
  | JStr (s : string)
  | JList (items : list Json)
  | JDict (fields : list (string * Json)).

(** [s.lower()] on ASCII letters. *)
Definition lower_ascii (c : ascii) : ascii :=
  let n := nat_of_ascii c in
  if (65 <=? n)%nat && (n <=? 90)%nat then ascii_of_nat (n + 32) else c.

Fixpoint lower (s : string) : string :=
  match s with
  | EmptyString => EmptyString
  | String c s' => String (lower_ascii c) (lower s')
  end.

(** [s.upper()] on ASCII letters. *)
Definition upper_ascii (c : ascii) : ascii :=
  let n := nat_of_ascii c in
  if (97 <=? n)%nat && (n <=? 122)%nat then ascii_of_nat (n - 32) else c.

Fixpoint upper (s : string) : string :=
  match s with
  | EmptyString => EmptyString
  | String c s' => String (upper_ascii c) (upper s')
  end.

(** [sep.join(l)]. *)
Fixpoint join (sep : string) (l : list string) : string :=
  match l with
  | [] => ""
  | [x] => x
  | x :: rest => x ++ sep ++ join sep rest
  end.

(** A response: status, headers (read without regard to case), the decoded
    body ([None] when [response.json()] raises) and the raw text. *)
Record Response := {
  status_code : Z;
  headers : list (string * string);
  json : option Json;
  text : string
}.

(** [name in response.headers] and [response.headers.get(name)]. *)
Fixpoint header_get (h : list (string * string)) (name : string)
  : option string :=
  match h with
  | [] => None
  | (k, v) :: h' =>
      if bool_decide (lower k = lower name) then Some v else header_get h' name
  end.

(** A request as the code issues it; the headers are a plain [dict]. *)
Record Request := {
  method : string;
  url : string;
  req_headers : gmap string string;
  payload : option Json;
  timeout : Z
}.

(** What a call into [requests] does: it returns a response or raises. *)
Inductive Outcome :=
  | Responded (r : Response)
  | Raised (e : PyExc).

End http.
Import http.

(** ** The orchestrator ([validate_production_readiness.py]) *)

Module validate_production_readiness.

(** A test record: the dictionary a checker appends to its ["tests"] list.
    Checkers set either [status] or [passed]; [test.get(key)] is [None] for an
    absent key, which is [PNone] here. *)
Record Test := {
  t_name : option string;
  t_status : PyVal;
  t_passed : PyVal;
  t_message : option string;
  t_remediation : option string
}.

Definition set_remediation (test : Test) (advice : string) : Test :=
  {| t_name := t_name test; t_status := t_status test;
     t_passed := t_passed test; t_message := t_message test;
     t_remediation := Some advice |}.

(** What every checker hands back to the orchestrator, as far as the tally
    reads it: the test lists.  The API validator returns one list per
    endpoint, the deployment validator one per section. *)
Record CheckerResults := {
  env_results : list Test;
  security_results : list Test;
  load_test_results : list Test;
  api_results : list (list Test);
  db_results : list Test;
  deployment_results : list (list Test);
  logging_results : list Test;
  monitoring_results : list Test
}.

Record ValidationSummary := {
  s_start_time : Q;
  duration_seconds : Q;
  tests_passed : nat;
  tests_failed : nat;
  tests_warned : nat;
  s_total_tests : nat;
  pass_percentage : Q;
  production_ready : bool
}.

(** An entry of [self.results]: a section's tests (after the tally attached
    its remediation hints to them) or the summary. *)
Inductive Entry :=
  | Section_ (groups : list (list Test))
  | Summary_ (s : ValidationSummary).

Record ProductionValidator := {
  start_time : Q;
  validate_sections : list string;
  results : gmap string Entry;
  passed_tests : nat;
  failed_tests : nat;
  warning_tests : nat;
  total_tests : nat
}.

Definition __init__ (now : Q) (sections : list string) : ProductionValidator :=
  {| start_time := now; validate_sections := sections; results := ∅;
     passed_tests := 0; failed_tests := 0; warning_tests := 0;
     total_tests := 0 |}.

Definition advice_map : list (string * string) :=
  [ ("Database Table check",
     "Initialize database schema using the migration system or setup scripts.");
    ("Production log level",
     "Set LOG_LEVEL to INFO or WARN in production environment configuration.");
    ("JSON log format verification",
     "Configure a JSON formatter (e.g. python-json-logger) for easier log aggregation.");
    ("SLA Response time",
     "Investigate bottleneck using a profiler. Consider caching, indexing, or horizontal scaling.");
    ("Critical security header",
     "Add the missing header in your web server (Nginx/Apache) or application middleware.");
    ("Dockerfile best practices",
     "Review the Dockerfile to use specific version tags, non-root users, and multi-stage builds.");
    ("PII and Secret Scan",
     "Ensure secrets are not logged and implement log masking for sensitive data.");
    ("Schema validation",
     "Verify that API response body matches the contract. Update models or documentation.");
    ("Tracking ID support",
     "Ensure 'X-Request-ID' is accepted and echoed in responses for distributed tracing.") ].

Fixpoint lookup_advice (m : list (string * string)) (test_name : string)
  : option string :=
  match m with
  | [] => None
  | (key, advice) :: m' =>
      if str_in key test_name then Some advice else lookup_advice m' test_name
  end.

Definition _get_remediation (test_name message : string) : string :=
  default "Refer to internal architectural standards for production readiness."
          (lookup_advice advice_map test_name).

Definition with_counts (self : ProductionValidator) (p f w t : nat)
  : ProductionValidator :=
  {| start_time := start_time self; validate_sections := validate_sections self;
     results := results self;
     passed_tests := p; failed_tests := f; warning_tests := w;
     total_tests := t |}.

Definition remediate (test : Test) : Test :=
  set_remediation test
    (_get_remediation (default "" (t_name test)) (default "" (t_message test))).

(** The body of the loop of [_update_test_counts], for one test. *)
Definition count_test (self : ProductionValidator) (test : Test)
  : ProductionValidator * Test :=
  let total := S (total_tests self) in
  let status := t_status test in
  let passed := t_passed test in
  if eq_str status "PASS" || is_True passed then
    (with_counts self (S (passed_tests self)) (failed_tests self)
                 (warning_tests self) total, test)
  else if eq_str status "FAIL" || is_False passed then
    (with_counts self (passed_tests self) (S (failed_tests self))
                 (warning_tests self) total, remediate test)
  else if eq_str status "WARNING" then
    (with_counts self (passed_tests self) (failed_tests self)
                 (S (warning_tests self)) total, remediate test)
  else
    (with_counts self (passed_tests self) (failed_tests self)
                 (warning_tests self) total, test).

(** [_update_test_counts] returns the validator with its new counters and the
    tests as the in-place updates left them. *)
Fixpoint _update_test_counts (self : ProductionValidator) (tests : list Test)
  : ProductionValidator * list Test :=
  match tests with
  | [] => (self, [])
  | test :: rest =>
      let '(self1, test1) := count_test self test in
      let '(self2, rest2) := _update_test_counts self1 rest in
      (self2, test1 :: rest2)
  end.

(** The loops [for endpoint_result in ...] and [for section in ...]. *)
Fixpoint update_groups (self : ProductionValidator) (groups : list (list Test))
  : ProductionValidator * list (list Test) :=
  match groups with
  | [] => (self, [])
  | g :: rest =>
      let '(self1, g1) := _update_test_counts self g in
      let '(self2, rest2) := update_groups self1 rest in
      (self2, g1 :: rest2)
  end.

Definition set_result (self : ProductionValidator) (key : string) (e : Entry)
  : ProductionValidator :=
  {| start_time := start_time self; validate_sections := validate_sections self;
     results := <[key := e]> (results self);
     passed_tests := passed_tests self; failed_tests := failed_tests self;
     warning_tests := warning_tests self; total_tests := total_tests self |}.

(** A [_run_*] method: the section's result is stored under [key] and its
    tests are tallied; the stored tests are the tallied ones (same objects). *)
Definition run_section (key : string) (groups : list (list Test))
    (self : ProductionValidator) : ProductionValidator :=
  let '(self1, groups1) := update_groups self groups in
  set_result self1 key (Section_ groups1).

Definition _run_env_validation (c : CheckerResults) :=
  run_section "env_config" [env_results c].
Definition _run_security_tests (c : CheckerResults) :=
  run_section "security" [security_results c].
Definition _run_performance_tests (c : CheckerResults) :=
  run_section "performance" [load_test_results c].
Definition _run_api_tests (c : CheckerResults) :=
  run_section "api" (api_results c).
Definition _run_database_tests (c : CheckerResults) :=
  run_section "database" [db_results c].
Definition _run_deployment_checks (c : CheckerResults) :=
  run_section "deployment" (deployment_results c).
Definition _run_logging_tests (c : CheckerResults) :=
  run_section "logging" [logging_results c].
Definition _run_monitoring_tests (c : CheckerResults) :=
  run_section "monitoring" [monitoring_results c].

(** [if section in self.config["validate_sections"]: run()] *)
Definition when_enabled (section : string)
    (run : ProductionValidator → ProductionValidator)
    (self : ProductionValidator) : ProductionValidator :=
  if bool_decide (section ∈ validate_sections self) then run self else self.

Definition _add_summary (now : Q) (self : ProductionValidator)
  : result ProductionValidator :=
  pct ← (if bool_decide (0 < total_tests self)
         then q ← truediv (Z.of_nat (passed_tests self))
                          (Z.of_nat (total_tests self));
              mret (q * 100)%Q
         else mret 0%Q);
  mret (set_result self "summary" (Summary_
    {| s_start_time := start_time self;
       duration_seconds := (now - start_time self)%Q;
       tests_passed := passed_tests self;
       tests_failed := failed_tests self;
       tests_warned := warning_tests self;
       s_total_tests := total_tests self;
       pass_percentage := pct;
       production_ready := bool_decide (failed_tests self = 0) |})).

(** The tally of all enabled sections, in the fixed order of the pipeline. *)
Definition run_sections (c : CheckerResults) (self : ProductionValidator)
  : ProductionValidator :=
  let self := when_enabled "env_config" (_run_env_validation c) self in
  let self := when_enabled "security" (_run_security_tests c) self in
  let self := when_enabled "performance" (_run_performance_tests c) self in
  let self := when_enabled "api_endpoints" (_run_api_tests c) self in
  let self := when_enabled "database" (_run_database_tests c) self in
  let self := when_enabled "deployment" (_run_deployment_checks c) self in
  let self := when_enabled "logging" (_run_logging_tests c) self in
  when_enabled "monitoring" (_run_monitoring_tests c) self.

Definition run_validations (now : Q) (c : CheckerResults)
    (self : ProductionValidator) : result ProductionValidator :=
  _add_summary now (run_sections c self).

(** [results["summary"]] of a finished run. *)
Definition summary_of (self : ProductionValidator) : option ValidationSummary :=
  match results self !! "summary" with
  | Some (Summary_ s) => Some s
  | _ => None
  end.

(** *** The tally, in the specification's words *)

(** A test counts as passed, failed or warned; the three are tried in this
    order, so a test is counted at most once. *)
Definition counted_passed (t : Test) : Prop :=
  t_status t = PStr "PASS" ∨ t_passed t = PBool true.
Definition counted_failed (t : Test) : Prop :=
  ¬ counted_passed t ∧ (t_status t = PStr "FAIL" ∨ t_passed t = PBool false).
Definition counted_warned (t : Test) : Prop :=
  ¬ counted_passed t ∧ ¬ counted_failed t ∧ t_status t = PStr "WARNING".

(** Neither of the three: the status is none of PASS, FAIL and WARNING and
    [passed] is neither [True] nor [False]. *)
Definition unclassified (t : Test) : Prop :=
  t_status t ≠ PStr "PASS" ∧ t_status t ≠ PStr "FAIL" ∧
  t_status t ≠ PStr "WARNING" ∧
  t_passed t ≠ PBool true ∧ t_passed t ≠ PBool false.

#[global] Instance counted_passed_dec t : Decision (counted_passed t).
Proof. unfold counted_passed; apply _. Defined.
#[global] Instance counted_failed_dec t : Decision (counted_failed t).
Proof. unfold counted_failed; apply _. Defined.
#[global] Instance counted_warned_dec t : Decision (counted_warned t).
Proof. unfold counted_warned; apply _. Defined.
#[global] Instance unclassified_dec t : Decision (unclassified t).
Proof. unfold unclassified; apply _. Defined.

(** The tests of the enabled sections, in the order the run tallies them. *)
Definition section_tests (sections : list string) (section : string)
    (groups : list (list Test)) : list Test :=
  if bool_decide (section ∈ sections) then concat groups else [].

Definition enabled_tests (sections : list string) (c : CheckerResults)
  : list Test :=
  section_tests sections "env_config" [env_results c]
  ++ section_tests sections "security" [security_results c]
  ++ section_tests sections "performance" [load_test_results c]
  ++ section_tests sections "api_endpoints" (api_results c)
  ++ section_tests sections "database" [db_results c]
  ++ section_tests sections "deployment" (deployment_results c)
  ++ section_tests sections "logging" [logging_results c]
  ++ section_tests sections "monitoring" [monitoring_results c].

(** The number of tests a predicate holds of. *)
Definition count_if (P : Test → Prop) `{∀ t, Decision (P t)} (tests : list Test) : nat :=
  length (filter P tests).

(** The counters of a validator, as a tuple. *)
Definition counters (self : ProductionValidator) : nat * nat * nat * nat :=
  (passed_tests self, failed_tests self, warning_tests self, total_tests self).

Definition class_counts (tests : list Test) : nat * nat * nat * nat :=
  (count_if counted_passed tests, count_if counted_failed tests,
   count_if counted_warned tests, length tests).

Definition add_counts (a b : nat * nat * nat * nat) : nat * nat * nat * nat :=
  let '(p1, f1, w1, t1) := a in
  let '(p2, f2, w2, t2) := b in
  (p1 + p2, f1 + f2, w1 + w2, t1 + t2).

Arguments counters : simpl never.
Arguments class_counts : simpl never.
Arguments add_counts : simpl never.

End validate_production_readiness.

(** ** The API validator ([api_tests/api_validator.py]) *)

Module api_validator.

Import validate_production_readiness.

(** The classes of decoded JSON values; a schema's type tag is one of them. *)
Inductive TypeTag :=
  | T_NoneType | T_bool | T_int | T_float | T_str | T_list | T_dict.

#[global] Instance TypeTag_eq_dec : EqDecision TypeTag.
Proof. solve_decision. Defined.

(** A schema as [validate_schema] receives it: a type, a list, a dict, or
    any other object ([SOther] records its truth value). *)
Inductive Schema :=
  | SType (t : TypeTag)
  | SList (items : list Schema)
  | SDict (fields : list (string * Schema))
  | SOther (truthy : bool).

(** [t.__name__] *)
Definition type_name (t : TypeTag) : string :=
  match t with
  | T_NoneType => "NoneType" | T_bool => "bool" | T_int => "int"
  | T_float => "float" | T_str => "str" | T_list => "list" | T_dict => "dict"
  end.

(** [type(data)] *)
Definition type_of (data : Json) : TypeTag :=
  match data with
  | JNone => T_NoneType | JBool _ => T_bool | JInt _ => T_int
  | JFloat _ => T_float | JStr _ => T_str | JList _ => T_list
  | JDict _ => T_dict
  end.

(** [isinstance(data, t)]: [bool] is a subclass of [int]. *)
Definition isinstance (data : Json) (t : TypeTag) : bool :=
  bool_decide (type_of data = t)
  || (bool_decide (t = T_int) && bool_decide (type_of data = T_bool)).

(** [data[key]], with [None] for [key not in data]. *)
Fixpoint dict_get {A : Type} (d : list (string * A)) (key : string) : option A :=
  match d with
  | [] => None
  | (k, v) :: d' => if bool_decide (k = key) then Some v else dict_get d' key
  end.

Fixpoint validate_schema (data : Json) (schema : Schema) {struct schema}
  : bool * string :=
  match schema with
  | SType t =>
      if negb (isinstance data t)
      then (false, "Expected " ++ type_name t ++ ", got " ++ type_name (type_of data))
      else (true, "")
  | SList sch =>
      match data with
      | JList items =>
          match sch with
          | [] => (true, "")
          | schema0 :: _ =>
              (fix enumerate (i : nat) (items : list Json) : bool * string :=
                 match items with
                 | [] => (true, "")
                 | item :: rest =>
                     let '(valid, msg) := validate_schema item schema0 in
                     if negb valid
                     then (false, "item[" ++ pretty i ++ "] -> " ++ msg)
                     else enumerate (S i) rest
                 end) 0 items
          end
      | _ => (false, "Expected list, got " ++ type_name (type_of data))
      end
  | SDict sch =>
      match data with
      | JDict d =>
          (fix items (sch : list (string * Schema)) : bool * string :=
             match sch with
             | [] => (true, "")
             | (key, val_schema) :: rest =>
                 match dict_get d key with
                 | None => (false, "Missing required key: '" ++ key ++ "'")
                 | Some v =>
                     let '(valid, msg) := validate_schema v val_schema in
                     if negb valid
                     then (false, "'" ++ key ++ "' -> " ++ msg)
                     else items rest
                 end
             end) sch
      | _ => (false, "Expected dict, got " ++ type_name (type_of data))
      end
  | SOther _ => (true, "")
  end.

(** The two loops of [validate_schema], by name. *)
Definition validate_items (schema0 : Schema)
  : nat → list Json → bool * string :=
  fix enumerate (i : nat) (items : list Json) : bool * string :=
    match items with
    | [] => (true, "")
    | item :: rest =>
        let '(valid, msg) := validate_schema item schema0 in
        if negb valid
        then (false, "item[" ++ pretty i ++ "] -> " ++ msg)
        else enumerate (S i) rest
    end.

Definition validate_keys (d : list (string * Json))
  : list (string * Schema) → bool * string :=
  fix items (sch : list (string * Schema)) : bool * string :=
    match sch with
    | [] => (true, "")
    | (key, val_schema) :: rest =>
        match dict_get d key with
        | None => (false, "Missing required key: '" ++ key ++ "'")
        | Some v =>
            let '(valid, msg) := validate_schema v val_schema in
            if negb valid
            then (false, "'" ++ key ++ "' -> " ++ msg)
            else items rest
        end
    end.

(** *** The schema validator's contract, in the specification's words *)

(** A SchemaDescriptor is a primitive type tag, a single-element list or a
    mapping of required keys to SchemaDescriptors. *)
Fixpoint is_schema_descriptor (schema : Schema) : bool :=
  match schema with
  | SType _ => true
  | SList [item_schema] => is_schema_descriptor item_schema
  | SList _ => false
  | SDict fields =>
      (fix all (fields : list (string * Schema)) : bool :=
         match fields with
         | [] => true
         | (_, s) :: rest => is_schema_descriptor s && all rest
         end) fields
  | SOther _ => false
  end.

(** The value recursively matches the schema. *)
Inductive Matches : Schema → Json → Prop :=
  | Matches_type t data :
      isinstance data t = true →
      Matches (SType t) data
  | Matches_list item_schema items :
      Forall (Matches item_schema) items →
      Matches (SList [item_schema]) (JList items)
  | Matches_dict fields d :
      Forall (λ ks, ∃ v, dict_get d ks.1 = Some v ∧ Matches ks.2 v) fields →
      Matches (SDict fields) (JDict d).

(** One step of the path to a location inside a value. *)
Inductive Step :=
  | AtItem (i : nat)
  | AtKey (key : string).

Definition render_step (s : Step) : string :=
  match s with
  | AtItem i => "item[" ++ pretty i ++ "] -> "
  | AtKey key => "'" ++ key ++ "' -> "
  end.

Definition render_path (p : list Step) : string :=
  foldr (λ s acc, render_step s ++ acc) "" p.

(** [FirstFailure schema data p m]: in the validator's order (list items by
    index, schema keys in the schema's order) the first location where [data]
    fails [schema] is at path [p], and [m] describes the failure there. *)
Inductive FirstFailure : Schema → Json → list Step → string → Prop :=
  | FF_type t data :
      isinstance data t = false →
      FirstFailure (SType t) data []
        ("Expected " ++ type_name t ++ ", got " ++ type_name (type_of data))
  | FF_not_list item_schema data :
      type_of data ≠ T_list →
      FirstFailure (SList [item_schema]) data []
        ("Expected list, got " ++ type_name (type_of data))
  | FF_item item_schema items i item p m :
      items !! i = Some item →
      Forall (Matches item_schema) (take i items) →
      FirstFailure item_schema item p m →
      FirstFailure (SList [item_schema]) (JList items) (AtItem i :: p) m
  | FF_not_dict fields data :
      type_of data ≠ T_dict →
      FirstFailure (SDict fields) data []
        ("Expected dict, got " ++ type_name (type_of data))
  | FF_missing before key val_schema after d :
      Forall (λ ks, ∃ v, dict_get d ks.1 = Some v ∧ Matches ks.2 v) before →
      dict_get d key = None →
      FirstFailure (SDict (before ++ (key, val_schema) :: after)) (JDict d) []
        ("Missing required key: '" ++ key ++ "'")
  | FF_key before key val_schema after d v p m :
      Forall (λ ks, ∃ v, dict_get d ks.1 = Some v ∧ Matches ks.2 v) before →
      dict_get d key = Some v →
      FirstFailure val_schema v p m →
      FirstFailure (SDict (before ++ (key, val_schema) :: after)) (JDict d)
        (AtKey key :: p) m.

(** What [validate_schema] returns, case by case. *)
Definition validated (schema : Schema) (data : Json) : Prop :=
  (Matches schema data ∧ validate_schema data schema = (true, ""))
  ∨ (¬ Matches schema data ∧
     ∃ p m, FirstFailure schema data p m ∧ m ≠ "" ∧
       validate_schema data schema = (false, render_path p ++ m)).

(** *** [APIEndpointValidator] *)

Record APIEndpointValidator := {
  self_base_url : string;
  self_timeout : Z;
  self_sla_ms : Z;
  self_headers : gmap string string
}.

(** [d.setdefault(key, value)] on the headers. *)
Definition setdefault (key value : string) (d : gmap string string)
  : gmap string string :=
  match d !! key with
  | Some _ => d
  | None => <[key := value]> d
  end.

(** [APIEndpointValidator.__init__]; an empty token counts as no token. *)
Definition APIEndpointValidator_init (base_url : string)
    (auth_token : option string) (headers : option (gmap string string))
    (timeout sla_ms : Z) : APIEndpointValidator :=
  let defaults :=
    setdefault "Accept" "application/json"
      (setdefault "Content-Type" "application/json" (default ∅ headers)) in
  {| self_base_url := rstrip_slash base_url;
     self_timeout := timeout;
     self_sla_ms := sla_ms;
     self_headers :=
       match auth_token with
       | Some token =>
           if bool_decide (token = "") then defaults
           else <["Authorization" := "Bearer " ++ token]> defaults
       | None => defaults
       end |}.

(** The keyword arguments of [validate_endpoint], as an endpoint
    configuration gives them. *)
Record EndpointConfig := {
  endpoint : string;
  c_method : string;
  expected_status : Z;
  expected_content_type : string;
  required_fields : option (list string);
  expected_schema : option Schema;
  c_payload : option Json;
  authentication_required : bool;
  sla_ms : option Z
}.

(** A configuration that gives the endpoint only: the defaults of the
    signature. *)
Definition default_config (endpoint : string) : EndpointConfig :=
  {| endpoint := endpoint; c_method := "GET"; expected_status := 200;
     expected_content_type := "application/json"; required_fields := None;
     expected_schema := None; c_payload := None;
     authentication_required := false; sla_ms := None |}.

(** What one call of [validate_endpoint] meets: the clock when the tracking
    id is built, what the request of the [try] block does, the response
    time measured around it, and what the request without credentials
    does. *)
Record EndpointWorld := {
  w_now : Z;
  w_primary : Request → Outcome;
  w_response_time : Q;
  w_unauthenticated : Request → Outcome
}.

(** [results["response"]]: the decoded body, or the first 500 characters of
    the text. *)
Inductive Body :=
  | BodyJson (j : Json)
  | BodyText (s : string).

Record EndpointResults := {
  r_endpoint : string;
  r_method : string;
  r_url : string;
  r_passed : bool;
  r_tests : list Test;
  r_status_code : option Z;
  r_response_time : option Q;
  r_response : option Body;
  r_error : option string
}.

(** A test record with the keys [name], [passed] and [message]. *)
Definition passed_test (name : string) (passed : bool) (message : string)
  : Test :=
  {| t_name := Some name; t_status := PNone; t_passed := PBool passed;
     t_message := Some message; t_remediation := None |}.

(** Truth value of a schema object. *)
Definition schema_truthy (schema : Schema) : bool :=
  match schema with
  | SType _ => true
  | SList [] => false
  | SList _ => true
  | SDict [] => false
  | SDict _ => true
  | SOther truthy => truthy
  end.

(** [f in response_json]: key membership for a dict, element membership
    for a list, substring for a string; anything else is not iterable. *)
Definition contains (response_json : Json) (f : string) : result bool :=
  match response_json with
  | JDict fields => Ok (bool_decide (is_Some (dict_get fields f)))
  | JList items =>
      Ok (existsb (λ item, match item with
                           | JStr s => bool_decide (s = f)
                           | _ => false
                           end) items)
  | JStr s => Ok (str_in f s)
  | other =>
      Raise (TypeError ("argument of type '" ++ type_name (type_of other)
                        ++ "' is not iterable"))
  end.

(** [[f for f in required_fields if f not in response_json]] *)
Fixpoint missing_fields (required_fields : list string) (response_json : Json)
  : result (list string) :=
  match required_fields with
  | [] => Ok []
  | f :: rest =>
      present ← contains response_json f;
      missing ← missing_fields rest response_json;
      Ok (if (present : bool) then missing else f :: missing)
  end.

(** [request_headers]: a copy of the validator's headers with the tracking
    id. *)
Definition request_headers (self : APIEndpointValidator) (w : EndpointWorld)
  : gmap string string :=
  <["X-Request-ID" := "val-" ++ str_of_int (w_now w)]> (self_headers self).

(** [{k: v for k, v in request_headers.items() if k != 'Authorization'}] *)
Definition no_auth_headers (self : APIEndpointValidator) (w : EndpointWorld)
  : gmap string string :=
  filter (λ kv, kv.1 ≠ "Authorization") (request_headers self w).

Definition primary_request (self : APIEndpointValidator)
    (cfg : EndpointConfig) (w : EndpointWorld) : Request :=
  {| method := upper (c_method cfg);
     url := self_base_url self ++ endpoint cfg;
     req_headers := request_headers self w;
     payload := c_payload cfg;
     timeout := self_timeout self |}.

Definition no_auth_request (self : APIEndpointValidator)
    (cfg : EndpointConfig) (w : EndpointWorld) : Request :=
  {| method := upper (c_method cfg);
     url := self_base_url self ++ endpoint cfg;
     req_headers := no_auth_headers self w;
     payload := c_payload cfg;
     timeout := self_timeout self |}.

(** [sla_ms or self.sla_ms] *)
Definition target_sla (self : APIEndpointValidator) (cfg : EndpointConfig)
  : Z :=
  match sla_ms cfg with
  | Some s => if bool_decide (s = 0%Z) then self_sla_ms self else s
  | None => self_sla_ms self
  end.

(** [# Test 3: Schema/Fields validation] *)
Definition schema_tests (cfg : EndpointConfig) (response : Response)
  : result (list Test) :=
  match json response with
  | None => Ok []
  | Some response_json =>
      let fields_tests :=
        match required_fields cfg with
        | Some (f :: fs) =>
            missing ← missing_fields (f :: fs) response_json;
            Ok [ passed_test "Required fields check"
                   (bool_decide (missing = []))
                   (if bool_decide (missing = []) then "All fields present"
                    else "Missing: " ++ join ", " missing) ]
        | _ => Ok []
        end in
      match expected_schema cfg with
      | Some schema =>
          if schema_truthy schema then
            let '(valid, msg) := validate_schema response_json schema in
            Ok [ passed_test "Schema validation" valid
                   (if valid then "Schema matches"
                    else "Schema mismatch: " ++ msg) ]
          else fields_tests
      | None => fields_tests
      end
  end.

(** The test appended by [# Test 4: Authentication enforcement]. *)
Definition auth_test (no_auth : Outcome) : Test :=
  match no_auth with
  | Responded no_auth_res =>
      let auth_passed :=
        bool_decide (status_code no_auth_res = 401%Z
                     ∨ status_code no_auth_res = 403%Z) in
      passed_test "Auth enforcement" auth_passed
        (if auth_passed
         then "Access denied as expected (Got "
              ++ str_of_int (status_code no_auth_res) ++ ")"
         else "Endpoint allowed unauthorized access")
  | Raised _ =>
      passed_test "Auth enforcement" true "Connection refused without auth"
  end.

Definition auth_tests (self : APIEndpointValidator) (cfg : EndpointConfig)
    (w : EndpointWorld) : list Test :=
  if authentication_required cfg
  then [auth_test (w_unauthenticated w (no_auth_request self cfg w))]
  else [].

(** [all(test["passed"] for test in tests)] *)
Definition all_passed (tests : list Test) : bool :=
  forallb (λ test, bool_decide (t_passed test = PBool true)) tests.

Definition validate_endpoint `{FloatText} (self : APIEndpointValidator)
    (cfg : EndpointConfig) (w : EndpointWorld) : result EndpointResults :=
  let url := self_base_url self ++ endpoint cfg in
  let method := upper (c_method cfg) in
  match w_primary w (primary_request self cfg w) with
  | Responded response =>
      let response_time := w_response_time w in
      let tracking :=
        passed_test "Tracking ID support"
          (bool_decide (is_Some (header_get (headers response) "X-Request-ID"))
           || bool_decide (status_code response < 500)%Z)
          "API should ideally echo or support X-Request-ID" in
      let status :=
        passed_test "Status code check"
          (bool_decide (status_code response = expected_status cfg))
          ("Expected " ++ str_of_int (expected_status cfg) ++ ", got "
           ++ str_of_int (status_code response)) in
      let content_type :=
        default "" (header_get (headers response) "Content-Type") in
      let content :=
        passed_test "Content type check"
          (str_in (expected_content_type cfg) content_type)
          ("Expected " ++ expected_content_type cfg ++ ", got "
           ++ content_type) in
      checked ← schema_tests cfg response;
      let sla :=
        passed_test "SLA Response time"
          (Qle_bool response_time (inject_Z (target_sla self cfg)))
          (format_1f response_time ++ "ms (SLA: "
           ++ str_of_int (target_sla self cfg) ++ "ms)") in
      let tests :=
        ([tracking; status; content] ++ checked ++ auth_tests self cfg w
         ++ [sla])%list in
      Ok {| r_endpoint := endpoint cfg; r_method := method; r_url := url;
            r_passed := all_passed tests; r_tests := tests;
            r_status_code := Some (status_code response);
            r_response_time := Some response_time;
            r_response :=
              Some match json response with
                   | Some response_json => BodyJson response_json
                   | None => BodyText (String.substring 0 500 (text response))
                   end;
            r_error := None |}
  | Raised (RequestException what) =>
      Ok {| r_endpoint := endpoint cfg; r_method := method; r_url := url;
            r_passed := false;
            r_tests := [ passed_test "Network connectivity" false
                           ("Request failed: " ++ what) ];
            r_status_code := None; r_response_time := None;
            r_response := None; r_error := Some what |}
  | Raised e => Raise e
  end.

(** *** [validate_endpoints], discovery and the entry point *)

Record ValidationResults := {
  v_base_url : string;
  v_passed : bool;
  v_total : nat;
  passed_endpoints : nat;
  v_endpoints : list EndpointResults
}.

(** The loop of [validate_endpoints]; [world i] is what the call for the
    [i]-th configuration meets. *)
Fixpoint validate_each `{FloatText} (self : APIEndpointValidator)
    (endpoints : list EndpointConfig) (world : nat → EndpointWorld) (i : nat)
  : result (list EndpointResults) :=
  match endpoints with
  | [] => Ok []
  | endpoint_config :: rest =>
      endpoint_result ← validate_endpoint self endpoint_config (world i);
      others ← validate_each self rest world (S i);
      Ok (endpoint_result :: others)
  end.

Definition validate_endpoints `{FloatText} (self : APIEndpointValidator)
    (endpoints : list EndpointConfig) (world : nat → EndpointWorld)
  : result ValidationResults :=
  endpoint_results ← validate_each self endpoints world 0;
  let passed_count :=
    length (filter (λ r, r_passed r = true) endpoint_results) in
  Ok {| v_base_url := self_base_url self;
        v_passed := bool_decide (passed_count = length endpoints);
        v_total := length endpoints;
        passed_endpoints := passed_count;
        v_endpoints := endpoint_results |}.

Definition common_paths : list string :=
  [ "/"; "/api"; "/api/v1"; "/api/v2"; "/health"; "/status"; "/docs";
    "/api/docs"; "/swagger"; "/api/users"; "/api/auth/login";
    "/api/auth/register"; "/api/products"; "/api/orders" ].

(** The probe [requests.head(f"{self.base_url}{path}", headers=self.headers,
    timeout=min(2, self.timeout))]. *)
Definition probe_request (self : APIEndpointValidator) (path : string)
  : Request :=
  {| method := "HEAD"; url := self_base_url self ++ path;
     req_headers := self_headers self; payload := None;
     timeout := Z.min 2 (self_timeout self) |}.

(** The body of the loop of [discover_api_endpoints]: the path is appended
    when the probe answers with [status_code < 404]; a probe that raises is
    passed over. *)
Definition probe_keeps (o : Outcome) : bool :=
  match o with
  | Responded response => bool_decide (status_code response < 404)%Z
  | Raised _ => false
  end.

Definition discover_api_endpoints (self : APIEndpointValidator)
    (head : Request → Outcome) : list string :=
  filter (λ path, probe_keeps (head (probe_request self path))) common_paths.

(** The world of a validator: the discovery probes and the world of each
    endpoint validation. *)
Record ApiWorld := {
  w_head : Request → Outcome;
  w_endpoint : nat → EndpointWorld
}.

(** The configuration [auto_validate_endpoints] builds for a discovered
    endpoint. *)
Definition discovered_config (endpoint : string) : EndpointConfig :=
  {| endpoint := endpoint; c_method := "GET"; expected_status := 200;
     expected_content_type := "application/json"; required_fields := None;
     expected_schema := None; c_payload := None;
     authentication_required := false; sla_ms := None |}.

Definition auto_validate_endpoints `{FloatText} (self : APIEndpointValidator)
    (w : ApiWorld) : result ValidationResults :=
  let discovered := discover_api_endpoints self (w_head w) in
  validate_endpoints self (discovered_config <$> discovered) (w_endpoint w).

Definition validate_api_endpoints `{FloatText} (base_url : string)
    (auth_token : option string) (endpoints : option (list EndpointConfig))
    (auto_discover : bool) (w : ApiWorld) : result ValidationResults :=
  let validator := APIEndpointValidator_init base_url auth_token None 10 500 in
  if auto_discover then auto_validate_endpoints validator w
  else
    match endpoints with
    | Some (e :: es) => validate_endpoints validator (e :: es) (w_endpoint w)
    | _ => validate_endpoints validator [default_config "/health"]
             (w_endpoint w)
    end.

(** *** When [validate_endpoint] returns *)

(** The values [in] accepts on its right: a dict, a list or a string. *)
Definition iterable (response_json : Json) : bool :=
  match response_json with
  | JDict _ | JList _ | JStr _ => true
  | _ => false
  end.

(** [required_fields] is consulted for a decoded body: there is no schema
    (or a falsy one) and the list of fields is not empty. *)
Definition fields_consulted (cfg : EndpointConfig) : bool :=
  match expected_schema cfg with
  | Some schema => negb (schema_truthy schema)
  | None => true
  end
  && match required_fields cfg with
     | Some (_ :: _) => true
     | _ => false
     end.

(** *** Inputs used to instantiate the statements *)

Definition example_validator : APIEndpointValidator :=
  APIEndpointValidator_init "http://app/" (Some "s3cret") None 10 500.

Definition example_status (code : Z) : Response :=
  {| status_code := code; headers := []; json := None; text := "" |}.

Definition json_response (code : Z) (body : Json) : Response :=
  {| status_code := code;
     headers := [("Content-Type", "application/json")];
     json := Some body; text := "" |}.

(** [/api/users], declared to need credentials. *)
Definition example_auth_config : EndpointConfig :=
  {| endpoint := "/api/users"; c_method := "get"; expected_status := 200;
     expected_content_type := "application/json"; required_fields := None;
     expected_schema := None; c_payload := None;
     authentication_required := true; sla_ms := None |}.

(** [/api/count], whose body must have the field [total]. *)
Definition example_fields_config : EndpointConfig :=
  {| endpoint := "/api/count"; c_method := "GET"; expected_status := 200;
     expected_content_type := "application/json";
     required_fields := Some ["total"];
     expected_schema := None; c_payload := None;
     authentication_required := false; sla_ms := None |}.

(** A service that answers 200 with or without credentials. *)
Definition example_open_world : EndpointWorld :=
  {| w_now := 1700000000;
     w_primary := λ _, Responded (json_response 200 (JDict [("id", JInt 1)]));
     w_response_time := 120;
     w_unauthenticated :=
       λ _, Responded (json_response 200 (JDict [("id", JInt 1)])) |}.

(** A service that answers the request with credentials and lets the one
    without them time out. *)
Definition example_silent_world : EndpointWorld :=
  {| w_now := 1700000000;
     w_primary := λ _, Responded (json_response 200 (JDict [("id", JInt 1)]));
     w_response_time := 120;
     w_unauthenticated := λ _, Raised (RequestException "Read timed out") |}.

(** A service whose body is the number 42. *)
Definition example_scalar_world : EndpointWorld :=
  {| w_now := 1700000000;
     w_primary := λ _, Responded (json_response 200 (JInt 42));
     w_response_time := 120;
     w_unauthenticated := λ _, Raised (RequestException "unused") |}.

(** A service that does not answer at all. *)
Definition example_down_world : EndpointWorld :=
  {| w_now := 1700000000;
     w_primary := λ _, Raised (RequestException "Connection refused");
     w_response_time := 0;
     w_unauthenticated := λ _, Raised (RequestException "Connection refused") |}.

(** Discovery probes: [/health] answers 200, [/api/orders] answers 500,
    [/docs] does not answer, everything else is 404. *)
Definition example_probes (request : Request) : Outcome :=
  if bool_decide (url request = "http://app/health")
  then Responded (example_status 200)
  else if bool_decide (url request = "http://app/api/orders")
  then Responded (example_status 500)
  else if bool_decide (url request = "http://app/docs")
  then Raised (RequestException "Connection refused")
  else Responded (example_status 404).

End api_validator.

(** ** The load tester ([performance_tests/load_tester.py]) *)

Module load_tester.

Import validate_production_readiness.

Definition get_percentile (data : list Q) (percentile : Q) : result Q :=
  if bool_decide (data = []) then Ok 0%Q
  else
    let sorted_data := sorted data in
    let n := Z.of_nat (length sorted_data) in
    if bool_decide (n = 1%Z) then getitem sorted_data 0
    else
      let idx := (inject_Z (n - 1) * (percentile / 100))%Q in
      let lower := int_of_float idx in
      let upper := (lower + 1)%Z in
      let weight := (idx - inject_Z lower)%Q in
      if bool_decide (upper >= n)%Z then getitem sorted_data lower
      else
        lo ← getitem sorted_data lower;
        hi ← getitem sorted_data upper;
        Ok (lo * (1 - weight) + hi * weight)%Q.

(** *** [LoadTestWorker] *)

(** An entry of the worker's ["errors"] list. *)
Record ErrorEntry := {
  e_url : string;
  e_status_code : option Z;
  e_response : option string;
  e_error : option string
}.

(** The statistics a worker (and the merge) computes when at least one
    response time was recorded.  [std_dev] is a square root and is not
    represented. *)
Record Statistics := {
  min_response_time : Q;
  max_response_time_seen : Q;
  avg_response_time : Q;
  median_response_time : Q;
  p95_response_time : Q;
  p99_response_time : Q
}.

Record WorkerResults := {
  requests : nat;
  successful : nat;
  failed : nat;
  response_times : list Q;
  errors : list ErrorEntry;
  statistics : option Statistics
}.

(** [self.results] after [__init__]. *)
Definition initial_results : WorkerResults :=
  {| requests := 0; successful := 0; failed := 0; response_times := [];
     errors := []; statistics := None |}.

(** [min(data)], [max(data)], [statistics.mean(data)] and
    [statistics.median(data)] for non-empty [data]. *)
Definition qmin (data : list Q) : Q :=
  match data with
  | [] => 0%Q
  | x :: rest => foldl (λ a b, if Qle_bool b a then b else a) x rest
  end.
Definition qmax (data : list Q) : Q :=
  match data with
  | [] => 0%Q
  | x :: rest => foldl (λ a b, if Qle_bool a b then b else a) x rest
  end.
Definition mean (data : list Q) : Q :=
  (qsum data / inject_Z (Z.of_nat (length data)))%Q.
Definition median (data : list Q) : Q :=
  let s := sorted data in
  let n := length s in
  if Nat.even n
  then ((default 0%Q (s !! (n / 2 - 1)%nat) + default 0%Q (s !! (n / 2)%nat)) / 2)%Q
  else default 0%Q (s !! (n / 2)%nat).

(** The block [# Calculate statistics]. *)
Definition compute_statistics (times : list Q) : result (option Statistics) :=
  if bool_decide (times = []) then Ok None
  else
    p95 ← get_percentile times 95;
    p99 ← get_percentile times 99;
    Ok (Some {| min_response_time := qmin times;
                max_response_time_seen := qmax times;
                avg_response_time := mean times;
                median_response_time := median times;
                p95_response_time := p95;
                p99_response_time := p99 |}).

(** The world of one worker: what the [k]-th [requests.get] of the worker
    does, with the response time the worker measures around it, and what
    the successive evaluations of [time.time() < end_time] give.  When
    [clock] is exhausted the deadline has passed. *)
Record WorkerWorld := {
  get : nat → string → Outcome * Q;
  clock : list bool
}.

(** One pass through the [try] statement of the inner loop. *)
Definition attempt (url : string) (out : Outcome * Q) (r : WorkerResults)
  : result WorkerResults :=
  match out.1 with
  | Responded response =>
      let response_time := out.2 in
      if bool_decide (status_code response < 400)%Z then
        Ok {| requests := S (requests r); successful := S (successful r);
              failed := failed r;
              response_times := response_times r ++ [response_time];
              errors := errors r; statistics := statistics r |}
      else
        Ok {| requests := S (requests r); successful := successful r;
              failed := S (failed r);
              response_times := response_times r ++ [response_time];
              errors := errors r ++
                [ {| e_url := url; e_status_code := Some (status_code response);
                     e_response := Some (String.substring 0 200 (text response));
                     e_error := None |} ];
              statistics := statistics r |}
  | Raised (RequestException what) =>
      Ok {| requests := S (requests r); successful := successful r;
            failed := S (failed r);
            response_times := response_times r;
            errors := errors r ++
              [ {| e_url := url; e_status_code := None; e_response := None;
                   e_error := Some what |} ];
            statistics := statistics r |}
  | Raised e => Raise e
  end.

(** Where the control is between two readings of the clock: at the
    [while] test, or in the [for] loop with the endpoints still to visit. *)
Inductive Control :=
  | AtWhile
  | InFor (rest : list string).

(** The nested loops of [run].  Every clock reading consumes one element of
    [ticks]; [k] counts the requests made so far.  The result is the
    worker's [self.results] when the loops are left, and the exception that
    left them, if one did: an exception that is not a [requests] exception
    leaves [run] with the counters as they are. *)
Fixpoint run_loop (base_url : string) (endpoints : list string)
    (get : nat → string → Outcome * Q) (ticks : list bool) (ctl : Control)
    (k : nat) (r : WorkerResults) {struct ticks}
  : WorkerResults * option PyExc :=
  match ctl with
  | InFor (endpoint :: rest) =>
      let url := base_url ++ endpoint in
      match attempt url (get k url) r with
      | Raise e => (r, Some e)
      | Ok r' =>
          match ticks with
          | true :: ticks' =>
              run_loop base_url endpoints get ticks' (InFor rest) (S k) r'
          | false :: ticks' =>
              run_loop base_url endpoints get ticks' AtWhile (S k) r'
          | [] => (r', None)
          end
      end
  | _ =>
      match ticks with
      | true :: ticks' =>
          run_loop base_url endpoints get ticks' (InFor endpoints) k r
      | _ => (r, None)
      end
  end.

(** The worker's [self.results] when [run] is over, however it ended. *)
Definition counted (base_url : string) (endpoints : list string)
    (w : WorkerWorld) : WorkerResults :=
  (run_loop base_url endpoints (get w) (clock w) AtWhile 0 initial_results).1.

(** [run] returned (it did not raise). *)
Definition returned (base_url : string) (endpoints : list string)
    (w : WorkerWorld) : bool :=
  match (run_loop base_url endpoints (get w) (clock w) AtWhile 0
           initial_results).2 with
  | None => true
  | Some _ => false
  end.

(** [LoadTestWorker(base_url, endpoints).run(duration)]; [base_url] is
    already stripped of its trailing slash. *)
Definition run (base_url : string) (endpoints : list string)
    (w : WorkerWorld) : result WorkerResults :=
  match run_loop base_url endpoints (get w) (clock w) AtWhile 0
          initial_results with
  | (r, None) =>
      st ← compute_statistics (response_times r);
      Ok {| requests := requests r; successful := successful r;
            failed := failed r; response_times := response_times r;
            errors := errors r; statistics := st |}
  | (_, Some e) => Raise e
  end.

(** *** [discover_endpoints] and [run_load_test] *)

Definition common_paths : list string :=
  [ "/api"; "/api/v1"; "/api/health"; "/api/status"; "/health"; "/status";
    "/api/users"; "/api/customers"; "/api/products" ].

(** The probe answered with a status below [limit]; a probe that raised is
    skipped by the bare [except]. *)
Definition answers_below (limit : Z) (o : Outcome) : bool :=
  match o with
  | Responded response => bool_decide (status_code response < limit)%Z
  | Raised _ => false
  end.

(** [head url] is what [requests.head(url, timeout=2)] does. *)
Definition discover_endpoints (base_url : string) (head : string → Outcome)
  : list string :=
  let discovered :=
    filter (λ path, answers_below 400 (head (rstrip_slash base_url ++ path)))
           common_paths in
  if bool_decide (discovered = []) then ["/"] else discovered.

(** The merged metrics ([combined]). *)
Record Metrics := {
  m_requests : nat;
  m_successful : nat;
  m_failed : nat;
  m_response_times : list Q;
  m_errors : list ErrorEntry;
  m_statistics : option Statistics;
  throughput : Q;
  success_rate : Q
}.

Record LoadTestResults := {
  lt_passed : bool;
  lt_total : nat;
  lt_passed_tests : nat;
  lt_tests : list Test;
  lt_metrics : option Metrics;
  lt_error : option string
}.

(** The world of a load test: the probe of the base URL, the discovery
    probes, each worker's world, and the order in which the workers'
    futures complete. *)
Record LoadTestWorld := {
  base_get : Outcome;
  head : string → Outcome;
  worker : nat → WorkerWorld;
  completion : list nat
}.

Definition status_test (name status message : string) : Test :=
  {| t_name := Some name; t_status := PStr status; t_passed := PNone;
     t_message := Some message; t_remediation := None |}.

(** The loop [for worker_result in all_results]. *)
Definition combine (all_results : list WorkerResults)
  : nat * nat * nat * list Q * list ErrorEntry :=
  foldl (λ '(rq, su, fa, times, errs) worker_result,
           (rq + requests worker_result, su + successful worker_result,
            fa + failed worker_result,
            (times ++ response_times worker_result)%list,
            (errs ++ errors worker_result)%list))
        (0%nat, 0%nat, 0%nat, [], []) all_results.

(** The results of the workers whose future returned, in completion
    order; a worker that raised is logged and left out. *)
Definition collect (base_url : string) (endpoints : list string)
    (w : LoadTestWorld) : list WorkerResults :=
  omap (λ i, match run (rstrip_slash base_url) endpoints (worker w i) with
             | Ok worker_result => Some worker_result
             | Raise _ => None
             end) (completion w).

Definition pass_or_fail (b : bool) : string := if b then "PASS" else "FAIL".

(** [endpoints if endpoints else discover_endpoints(base_url)] *)
Definition choose_endpoints (base_url : string)
    (endpoints : option (list string)) (w : LoadTestWorld) : list string :=
  match endpoints with
  | Some (e :: es) => e :: es
  | _ => discover_endpoints base_url (head w)
  end.

(** What worker [i] of a load test has counted when its [run] is over, and
    whether its [run] returned. *)
Definition worker_counted (base_url : string) (endpoints : list string)
    (w : LoadTestWorld) (i : nat) : WorkerResults :=
  counted (rstrip_slash base_url) endpoints (worker w i).

Definition worker_returned (base_url : string) (endpoints : list string)
    (w : LoadTestWorld) (i : nat) : bool :=
  returned (rstrip_slash base_url) endpoints (worker w i).

(** An outcome of [requests.get] that the worker's [except] clause
    handles: a response or a [requests] exception. *)
Definition handled (o : Outcome) : Prop :=
  match o with
  | Responded _ => True
  | Raised e => ∃ what, e = RequestException what
  end.

(** The body of the outer [try] after the base URL answered. *)
Definition measure `{FloatText} (base_url : string) (num_users duration max_response_time : Z)
    (endpoints : option (list string)) (w : LoadTestWorld)
  : result LoadTestResults :=
  let test_endpoints := choose_endpoints base_url endpoints w in
  if bool_decide (num_users <= 0)%Z
  then Raise (ValueError "max_workers must be greater than 0")
  else
    let '(rq, su, fa, times, errs) :=
      combine (collect base_url test_endpoints w) in
    st ← compute_statistics times;
    tp ← truediv (Z.of_nat rq) duration;
    sr ← (if bool_decide (0 < rq)%nat
          then q ← truediv (Z.of_nat su) (Z.of_nat rq); Ok (q * 100)%Q
          else Ok 0%Q);
    let combined :=
      {| m_requests := rq; m_successful := su; m_failed := fa;
         m_response_times := times; m_errors := errs; m_statistics := st;
         throughput := tp; success_rate := sr |} in
    let avg := from_option avg_response_time 0%Q st in
    let p95 := from_option p95_response_time 0%Q st in
    let limit95 := (inject_Z max_response_time * (3 # 2))%Q in
    let min_throughput := (inject_Z num_users / 2)%Q in
    let t1 := status_test "Request success rate"
      (pass_or_fail (Qle_bool 95 sr))
      ("Success rate: " ++ format_1f sr ++ "%") in
    let t2 := status_test "Average response time"
      (pass_or_fail (Qle_bool avg (inject_Z max_response_time)))
      ("Average response time: " ++ format_1f avg ++ " ms (Max allowed: "
       ++ str_of_int max_response_time ++ " ms)") in
    let t3 := status_test "95th percentile response time"
      (pass_or_fail (Qle_bool p95 limit95))
      ("95th percentile response time: " ++ format_1f p95
       ++ " ms (Max allowed: " ++ str_of_float limit95 ++ " ms)") in
    let t4 := status_test "Throughput (requests per second)"
      (pass_or_fail (Qle_bool min_throughput tp))
      ("Throughput: " ++ format_1f tp ++ " requests/sec (Min expected: "
       ++ str_of_float min_throughput ++ ")") in
    let tests := [t1; t2; t3; t4] in
    let passed_tests :=
      length (filter (λ t, t_status t = PStr "PASS") tests) in
    Ok {| lt_passed := bool_decide (passed_tests = 4%nat); lt_total := 4;
          lt_passed_tests := passed_tests; lt_tests := tests;
          lt_metrics := Some combined; lt_error := None |}.

Definition run_load_test `{FloatText} (base_url : string)
    (num_users duration max_response_time : Z)
    (endpoints : option (list string)) (w : LoadTestWorld)
  : LoadTestResults :=
  let on_error (e : PyExc) :=
    {| lt_passed := false; lt_total := 0; lt_passed_tests := 0;
       lt_tests := []; lt_metrics := None;
       lt_error := Some (str_of_exc e) |} in
  match base_get w with
  | Raised (RequestException what) =>
      {| lt_passed := false; lt_total := 1; lt_passed_tests := 0;
         lt_tests :=
           [ status_test "Base URL accessibility check" "FAIL"
               ("Base URL is not accessible: " ++ what) ];
         lt_metrics := None; lt_error := None |}
  | Raised e => on_error e
  | Responded _ =>
      match measure base_url num_users duration max_response_time endpoints w
      with
      | Ok results => results
      | Raise e => on_error e
      end
  end.

(** A world used to instantiate the statements: the service answers the
    base URL and [/health]; of a worker's requests every other one times
    out; two workers, the second finishing first. *)
Definition example_response (code : Z) : Response :=
  {| status_code := code; headers := []; json := None; text := "" |}.

Definition example_world : LoadTestWorld :=
  {| base_get := Responded (example_response 200);
     head := λ url,
       if String.eqb url "http://app/health"
       then Responded (example_response 200)
       else Responded (example_response 404);
     worker := λ i,
       {| get := λ k url,
            if Nat.even (k + i)
            then (Responded (example_response 200), 12%Q)
            else (Raised (RequestException "timed out"), 5000%Q);
          clock := [true; true; true; false] |};
     completion := [1%nat; 0%nat] |}.

(** The same service, where the second request of the second worker dies
    of something that is not a [requests] exception. *)
Definition example_faulty_world : LoadTestWorld :=
  {| base_get := Responded (example_response 200);
     head := λ url,
       if String.eqb url "http://app/health"
       then Responded (example_response 200)
       else Responded (example_response 404);
     worker := λ i,
       {| get := λ k url,
            if (i =? 1)%nat && (k =? 1)%nat
            then (Raised (OtherException "can't start new thread"), 0%Q)
            else (Responded (example_response 200), 12%Q);
          clock := [true; true; true; false] |};
     completion := [1%nat; 0%nat] |}.

End load_tester.

(** ** The environment validator ([config_validators/env_validator.py]) *)

Module env_validator.

Import validate_production_readiness.

(** *** String methods the validator uses

    Strings are read as ASCII text: the white space of [str.strip] is tab,
    line feed, vertical tab, form feed, carriage return, the four
    separators 28 to 31 and the space; digits are [0] to [9]. *)

Definition is_space (c : ascii) : bool :=
  let n := nat_of_ascii c in
  ((9 <=? n)%nat && (n <=? 13)%nat) || ((28 <=? n)%nat && (n <=? 32)%nat).

Fixpoint lstrip_of (space : ascii → bool) (s : string) : string :=
  match s with
  | String c s' => if space c then lstrip_of space s' else s
  | EmptyString => EmptyString
  end.

Fixpoint rstrip_of (space : ascii → bool) (s : string) : string :=
  match s with
  | EmptyString => EmptyString
  | String c s' =>
      match rstrip_of space s' with
      | EmptyString => if space c then EmptyString else String c EmptyString
      | t => String c t
      end
  end.

(** [s.strip()] *)
Definition strip (s : string) : string :=
  rstrip_of is_space (lstrip_of is_space s).

(** [s.lstrip('#')] *)
Fixpoint lstrip_hash (s : string) : string :=
  match s with
  | String c s' => if bool_decide (c = "#"%char) then lstrip_hash s' else s
  | EmptyString => EmptyString
  end.

(** [s.startswith('#')] *)
Definition startswith_hash (s : string) : bool :=
  match s with
  | String c _ => bool_decide (c = "#"%char)
  | EmptyString => false
  end.

(** [s.split(sep)] for a one-character separator. *)
Fixpoint split (sep : ascii) (s : string) : list string :=
  match s with
  | EmptyString => [EmptyString]
  | String c s' =>
      if bool_decide (c = sep) then EmptyString :: split sep s'
      else match split sep s' with
           | x :: rest => String c x :: rest
           | [] => [String c EmptyString]
           end
  end.

(** [len(set(value))] *)
Definition distinct_chars (value : string) : nat :=
  length (remove_dups (list_ascii_of_string value)).

Definition digit_value (c : ascii) : option Z :=
  let n := nat_of_ascii c in
  if (48 <=? n)%nat && (n <=? 57)%nat then Some (Z.of_nat (n - 48)) else None.

(** Decimal digits, single underscores allowed between digits. *)
Fixpoint digits (s : string) (acc : Z) (after_digit : bool) : option Z :=
  match s with
  | EmptyString => if after_digit then Some acc else None
  | String c s' =>
      match digit_value c with
      | Some d => digits s' (acc * 10 + d)%Z true
      | None =>
          if bool_decide (c = "_"%char) && after_digit
          then digits s' acc false
          else None
      end
  end.

(** The white space [int] skips around the number: tab to carriage return
    and the space, without the separators 28 to 31 that [str.strip]
    removes. *)
Definition is_int_space (c : ascii) : bool :=
  let n := nat_of_ascii c in
  ((9 <=? n)%nat && (n <=? 13)%nat) || (n =? 32)%nat.

(** [int(value)] on a string; [None] stands for [ValueError]. *)
Definition int_of_str (value : string) : option Z :=
  match rstrip_of is_int_space (lstrip_of is_int_space value) with
  | String "-" s => Z.opp <$> digits s 0 false
  | String "+" s => digits s 0 false
  | s => digits s 0 false
  end.

(** *** [ENV_SCHEMA] *)

Inductive VType := V_str | V_bool | V_int | V_url | V_email | V_secret | V_list.

(** A rule of the schema; a key the rule does not have is [None] (or
    [false] for [no_sqlite_prod], which is only ever [True]). *)
Record Rule := {
  rule_type : VType;
  rule_required : bool;
  rule_allowed : option (list string);
  rule_min : option Z;
  rule_max : option Z;
  rule_min_len : option nat;
  rule_no_sqlite_prod : bool;
  rule_default : option string;
  rule_prod_require : option string
}.

Definition rule (t : VType) (required : bool) : Rule :=
  {| rule_type := t; rule_required := required; rule_allowed := None;
     rule_min := None; rule_max := None; rule_min_len := None;
     rule_no_sqlite_prod := false; rule_default := None;
     rule_prod_require := None |}.

Definition with_allowed (allowed : list string) (r : Rule) : Rule :=
  {| rule_type := rule_type r; rule_required := rule_required r;
     rule_allowed := Some allowed; rule_min := rule_min r;
     rule_max := rule_max r; rule_min_len := rule_min_len r;
     rule_no_sqlite_prod := rule_no_sqlite_prod r;
     rule_default := rule_default r;
     rule_prod_require := rule_prod_require r |}.

Definition int_rule (min : Z) (max : option Z) : Rule :=
  {| rule_type := V_int; rule_required := true; rule_allowed := None;
     rule_min := Some min; rule_max := max; rule_min_len := None;
     rule_no_sqlite_prod := false; rule_default := None;
     rule_prod_require := None |}.

Definition secret_rule (min_len : nat) : Rule :=
  {| rule_type := V_secret; rule_required := true; rule_allowed := None;
     rule_min := None; rule_max := None; rule_min_len := Some min_len;
     rule_no_sqlite_prod := false; rule_default := None;
     rule_prod_require := None |}.

Definition ENV_SCHEMA : list (string * list (string * Rule)) :=
  [ ("CORE PLATFORM CONFIGURATION",
     [ ("ENVIRONMENT",
        with_allowed ["development"; "staging"; "production"]
          (rule V_str true));
       ("DEBUG", rule V_bool true);
       ("LOG_LEVEL",
        with_allowed ["DEBUG"; "INFO"; "WARNING"; "ERROR"; "CRITICAL"]
          (rule V_str true));
       ("PLATFORM_NAME", rule V_str true);
       ("PLATFORM_VERSION", rule V_str true) ]);
    ("DATABASE CONFIGURATION",
     [ ("DATABASE_URL",
        {| rule_type := V_url; rule_required := true; rule_allowed := None;
           rule_min := None; rule_max := None; rule_min_len := None;
           rule_no_sqlite_prod := true; rule_default := None;
           rule_prod_require := None |});
       ("DATABASE_ENCRYPTION_KEY", secret_rule 32) ]);
    ("JWT AUTHENTICATION & SECURITY",
     [ ("JWT_SECRET_KEY", secret_rule 32);
       ("JWT_ALGORITHM", with_allowed ["HS256"; "RS256"] (rule V_str true));
       ("JWT_EXPIRATION_HOURS", int_rule 1 None);
       ("ENCRYPTION_KEY", secret_rule 32);
       ("SSL_ENABLED",
        {| rule_type := V_bool; rule_required := false; rule_allowed := None;
           rule_min := None; rule_max := None; rule_min_len := None;
           rule_no_sqlite_prod := false; rule_default := Some "false";
           rule_prod_require := Some "true" |}) ]);
    ("WEB SERVER & API CONFIGURATION",
     [ ("API_HOST", rule V_str true);
       ("API_PORT", int_rule 1 (Some 65535%Z));
       ("API_CORS_ORIGINS", rule V_list true) ]);
    ("EMAIL CONFIGURATION",
     [ ("SMTP_SERVER", rule V_str true);
       ("SMTP_PORT", int_rule 1 (Some 65535%Z));
       ("SMTP_USE_TLS", rule V_bool true);
       ("SMTP_FROM_EMAIL", rule V_email true) ]);
    ("BACKUP & MONITORING",
     [ ("BACKUP_ENABLED", rule V_bool true);
       ("BACKUP_INTERVAL_HOURS", int_rule 1 None);
       ("HEALTH_CHECK_INTERVAL", int_rule 1 None) ]) ].

(** *** The functions of the module *)

Definition placeholders : list string :=
  ["your-secret-here"; "REPLACE_ME"; "example"; "placeholder"; "TODO"].

Definition is_placeholder (value : string) : bool :=
  existsb (λ p, str_in (lower p) (lower value)) placeholders
  || bool_decide (distinct_chars value < 3)%nat.

Definition parse_env_sections (content : string) : list string :=
  let lines := split "010"%char content in
  omap (λ line,
          if startswith_hash line then
            let section := strip (lstrip_hash line) in
            if bool_decide (section ∈ ENV_SCHEMA.*1) then Some section
            else None
          else None) lines.

Definition validate_type (value : string) (rule : Rule) : bool * string :=
  match rule_type rule with
  | V_bool =>
      (bool_decide (lower value ∈ ["true"; "false"; "1"; "0"; "yes"; "no"]),
       "Must be a boolean value, got '" ++ value ++ "'")
  | V_int =>
      match int_of_str value with
      | Some val =>
          let check_max :=
            match rule_max rule with
            | Some max =>
                if bool_decide (val > max)%Z
                then (false, "Value " ++ str_of_int val
                             ++ " is above maximum " ++ str_of_int max)
                else (true, "")
            | None => (true, "")
            end in
          match rule_min rule with
          | Some min =>
              if bool_decide (val < min)%Z
              then (false, "Value " ++ str_of_int val ++ " is below minimum "
                           ++ str_of_int min)
              else check_max
          | None => check_max
          end
      | None => (false, "Must be an integer, got '" ++ value ++ "'")
      end
  | V_url =>
      if str_in "://" value then (true, "")
      else (false, "Must be a valid connection URL, got '" ++ value ++ "'")
  | V_email =>
      (str_in "@" value
       && match split "@"%char value with
          | _ :: domain :: _ => str_in "." domain
          | _ => false
          end,
       "Must be a valid email, got '" ++ value ++ "'")
  | V_secret =>
      if is_placeholder value then (false, "Value appears to be a placeholder")
      else
        match rule_min_len rule with
        | Some min_len =>
            if bool_decide (String.length value < min_len)%nat
            then (false, "Secret is too short (min "
                         ++ pretty min_len ++ " chars)")
            else (true, "")
        | None => (true, "")
        end
  | V_list =>
      (bool_decide (0 < length (split ","%char value))%nat,
       "Must be a comma-separated list")
  | V_str =>
      match rule_allowed rule with
      | Some allowed =>
          if bool_decide (value ∉ allowed)
          then (false, "Value '" ++ value ++ "' not in allowed list: "
                       ++ join ", " allowed)
          else (true, "")
      | None => (true, "")
      end
  end.

(** The environment file as the validator meets it: absent; present but
    failing to load; or present with its text and with what
    [dotenv_values] makes of it (a name without [=] has the value
    [None]). *)
Inductive EnvFile :=
  | Missing
  | Unreadable (e : PyExc)
  | Readable (content : string) (env_vars : gmap string (option string)).

Record EnvResults := {
  e_passed : bool;
  e_total : nat;
  e_passed_tests : nat;
  e_failed_tests : nat;
  e_tests : list Test;
  e_error : option string
}.

Definition env_test (name status message : string) : Test :=
  {| t_name := Some name; t_status := PStr status; t_passed := PNone;
     t_message := Some message; t_remediation := None |}.

(** Append a test and count it, as passed or as failed. *)
Definition record_test (test : Test) (passed : bool) (results : EnvResults)
  : EnvResults :=
  {| e_passed := e_passed results;
     e_total := S (e_total results);
     e_passed_tests :=
       if passed then S (e_passed_tests results) else e_passed_tests results;
     e_failed_tests :=
       if passed then e_failed_tests results else S (e_failed_tests results);
     e_tests := e_tests results ++ [test];
     e_error := e_error results |}.

(** The body of the loop over the variables of a section. *)
Definition check_variable (env_vars : gmap string (option string))
    (is_production : bool) (results : EnvResults) (item : string * Rule)
  : EnvResults :=
  let '(var_name, rule) := item in
  match mjoin (env_vars !! var_name) with
  | Some (String c rest) =>
      let val := String c rest in
      let '(is_valid, msg) := validate_type val rule in
      let '(is_valid, msg) :=
        if is_production
           && rule_no_sqlite_prod rule && str_in "sqlite" (lower val)
        then (false, "SQLite is not allowed in production")
        else (is_valid, msg) in
      let '(is_valid, msg) :=
        match rule_prod_require rule with
        | Some prod_require =>
            if is_production
               && negb (bool_decide (lower val = lower prod_require))
            then (false, "In production, " ++ var_name ++ " must be "
                         ++ prod_require)
            else (is_valid, msg)
        | None => (is_valid, msg)
        end in
      record_test
        (env_test ("Variable validation: " ++ var_name)
           (if is_valid then "PASS" else "FAIL")
           (if is_valid then var_name ++ " is valid"
            else var_name ++ " invalid: " ++ msg))
        is_valid results
  | _ =>
      if rule_required rule then
        record_test
          (env_test ("Variable presence: " ++ var_name) "FAIL"
             ("Mandatory variable " ++ var_name ++ " is missing"))
          false results
      else
        record_test
          (env_test ("Variable presence: " ++ var_name) "PASS"
             ("Optional variable " ++ var_name ++ " is missing"))
          true results
  end.

(** The body of the loop over the sections of [ENV_SCHEMA]. *)
Definition check_section (required_sections env_sections : list string)
    (env_vars : gmap string (option string)) (is_production : bool)
    (results : EnvResults) (item : string * list (string * Rule))
  : EnvResults :=
  let '(section_name, section_rules) := item in
  if bool_decide (section_name ∉ required_sections) then results
  else
    let section_present := bool_decide (section_name ∈ env_sections) in
    let results :=
      record_test
        (env_test ("Section check: " ++ section_name)
           (if section_present then "PASS" else "WARNING")
           (if section_present
            then "Section '" ++ section_name ++ "' is documented"
            else "Section header '" ++ section_name
                 ++ "' missing from comments"))
        true results in
    foldl (check_variable env_vars is_production) results section_rules.

Definition initial_results : EnvResults :=
  {| e_passed := false; e_total := 0; e_passed_tests := 0;
     e_failed_tests := 0; e_tests := []; e_error := None |}.

Definition validate_env_file (env_file_path : string)
    (required_sections : option (list string)) (file : EnvFile)
  : EnvResults :=
  let required_sections := default (ENV_SCHEMA.*1) required_sections in
  let on_error (e : PyExc) :=
    {| e_passed := false; e_total := 0; e_passed_tests := 0;
       e_failed_tests := 0; e_tests := [];
       e_error := Some (str_of_exc e) |} in
  match file with
  | Missing =>
      {| e_passed := false; e_total := 1; e_passed_tests := 0;
         e_failed_tests := 1;
         e_tests :=
           [ env_test "File existence check" "FAIL"
               ("Environment file " ++ env_file_path ++ " does not exist") ];
         e_error := None |}
  | Unreadable e => on_error e
  | Readable content env_vars =>
      let env_sections := parse_env_sections content in
      match env_vars !! "ENVIRONMENT" with
      | Some None =>
          on_error
            (OtherException "'NoneType' object has no attribute 'lower'")
      | environment =>
          let is_production :=
            bool_decide
              (lower (default "" (mjoin environment)) = "production") in
          let results :=
            foldl (check_section required_sections env_sections env_vars
                     is_production)
                  initial_results ENV_SCHEMA in
          {| e_passed := bool_decide (e_failed_tests results = 0%nat);
             e_total := e_total results;
             e_passed_tests := e_passed_tests results;
             e_failed_tests := e_failed_tests results;
             e_tests := e_tests results;
             e_error := None |}
      end
  end.

(** [validate_env_config]: the legacy name. *)
Definition validate_env_config (env_file_path : string) (file : EnvFile)
  : EnvResults :=
  validate_env_file env_file_path None file.

(** The number of tests the schema asks for: one per required section and
    one per variable of it. *)
Definition expected_tests (required_sections : list string) : nat :=
  sum_list_with
    (λ item, if bool_decide (item.1 ∉ required_sections) then 0%nat
             else S (length item.2))
    ENV_SCHEMA.

(** What the loops keep: every test is appended and counted once, as passed
    or as failed. *)
Definition tallied (n : nat) (before after : EnvResults) : Prop :=
  e_total after = e_total before + n ∧
  length (e_tests after) = length (e_tests before) + n ∧
  e_passed_tests after + e_failed_tests after =
    e_passed_tests before + e_failed_tests before + n.

(** The validator's own count of a test agrees with the class the
    orchestrator's tally puts it in: what it counts as failed the tally
    counts as failed, what it counts as passed the tally counts as passed
    or as a warning. *)
Definition classified (passed : bool) (test : Test) : Prop :=
  if passed then counted_passed test ∨ counted_warned test
  else counted_failed test.

Definition agrees (results : EnvResults) : Prop :=
  count_if counted_failed (e_tests results) = e_failed_tests results ∧
  count_if counted_passed (e_tests results)
  + count_if counted_warned (e_tests results) = e_passed_tests results.

(** A file that exists and holds nothing. *)
Definition blank_file : EnvFile := Readable "" ∅.

End env_validator.

(** * Properties *)

(** ** The orchestrator's tally and summary *)

Section orchestrator.
Import validate_production_readiness.

Implicit Types (self : ProductionValidator) (test t : Test)
  (tests : list Test) (groups : list (list Test)).


Lemma count_if_nil (P : Test → Prop) `{∀ t, Decision (P t)} :
  count_if P [] = 0.
Proof. reflexivity. Qed.

Lemma count_if_cons (P : Test → Prop) `{∀ t, Decision (P t)} t tests :
  count_if P (t :: tests) =
  (if decide (P t) then 1 else 0) + count_if P tests.
Proof.
  unfold count_if. rewrite filter_cons. by destruct (decide (P t)).
Qed.

Lemma count_if_app (P : Test → Prop) `{∀ t, Decision (P t)} tests1 tests2 :
  count_if P (tests1 ++ tests2) = count_if P tests1 + count_if P tests2.
Proof. unfold count_if. by rewrite filter_app, length_app. Qed.

Lemma count_if_0 (P : Test → Prop) `{∀ t, Decision (P t)} tests :
  count_if P tests = 0 ↔ Forall (λ t, ¬ P t) tests.
Proof.
  induction tests as [|t tests IH]; [by split|].
  rewrite count_if_cons, Forall_cons. destruct (decide (P t)); simpl.
  - split; [lia | intros []; done].
  - rewrite IH. tauto.
Qed.

(** The four outcomes of one loop iteration. *)
Lemma count_test_passed self t :
  counted_passed t →
  count_test self t =
  (with_counts self (S (passed_tests self)) (failed_tests self)
     (warning_tests self) (S (total_tests self)), t).
Proof.
  intros Hp. unfold count_test, eq_str, is_True.
  destruct Hp as [-> | ->]; [done|].
  by rewrite orb_true_r.
Qed.

Lemma not_counted_passed t :
  ¬ counted_passed t →
  eq_str (t_status t) "PASS" || is_True (t_passed t) = false.
Proof.
  unfold counted_passed, eq_str, is_True. intros Hn.
  apply orb_false_intro; apply bool_decide_eq_false; tauto.
Qed.

Lemma count_test_failed self t :
  counted_failed t →
  count_test self t =
  (with_counts self (passed_tests self) (S (failed_tests self))
     (warning_tests self) (S (total_tests self)), remediate t).
Proof.
  intros [Hn Hf]. unfold count_test. rewrite (not_counted_passed _ Hn).
  unfold eq_str, is_False. destruct Hf as [-> | ->]; [done|].
  by rewrite orb_true_r.
Qed.

Lemma not_counted_failed t :
  ¬ counted_passed t → ¬ counted_failed t →
  eq_str (t_status t) "FAIL" || is_False (t_passed t) = false.
Proof.
  unfold counted_failed, eq_str, is_False. intros Hp Hf.
  apply orb_false_intro; apply bool_decide_eq_false; tauto.
Qed.

Lemma count_test_warned self t :
  counted_warned t →
  count_test self t =
  (with_counts self (passed_tests self) (failed_tests self)
     (S (warning_tests self)) (S (total_tests self)), remediate t).
Proof.
  intros (Hp & Hf & Hw). unfold count_test.
  rewrite (not_counted_passed _ Hp), (not_counted_failed _ Hp Hf).
  unfold eq_str. by rewrite Hw.
Qed.

Lemma unclassified_not_counted t :
  unclassified t ↔
  ¬ counted_passed t ∧ ¬ counted_failed t ∧ ¬ counted_warned t.
Proof.
  unfold unclassified, counted_warned, counted_failed, counted_passed.
  destruct (decide (t_status t = PStr "PASS")),
    (decide (t_status t = PStr "FAIL")),
    (decide (t_status t = PStr "WARNING")),
    (decide (t_passed t = PBool true)),
    (decide (t_passed t = PBool false)); try tauto; congruence.
Qed.

Lemma count_test_unclassified self t :
  unclassified t →
  count_test self t =
  (with_counts self (passed_tests self) (failed_tests self)
     (warning_tests self) (S (total_tests self)), t).
Proof.
  intros Hu. pose proof Hu as (Hp & Hf & Hw)%unclassified_not_counted.
  unfold count_test.
  rewrite (not_counted_passed _ Hp), (not_counted_failed _ Hp Hf).
  destruct Hu as (_ & _ & Hs & _). unfold eq_str.
  by rewrite bool_decide_eq_false_2.
Qed.

(** Every test falls in exactly one of the four classes. *)
Lemma classes_exhaustive t :
  counted_passed t ∨ counted_failed t ∨ counted_warned t ∨ unclassified t.
Proof.
  rewrite unclassified_not_counted.
  destruct (decide (counted_passed t)), (decide (counted_failed t)),
    (decide (counted_warned t)); tauto.
Qed.


Local Ltac tuple_eq :=
  unfold add_counts, counters, class_counts; simpl;
  repeat match goal with |- (_, _) = (_, _) => f_equal end; lia.

Lemma class_counts_app tests1 tests2 :
  class_counts (tests1 ++ tests2) =
  add_counts (class_counts tests1) (class_counts tests2).
Proof.
  unfold class_counts, add_counts.
  by rewrite !count_if_app, length_app.
Qed.

Lemma add_counts_assoc a b c :
  add_counts (add_counts a b) c = add_counts a (add_counts b c).
Proof.
  destruct a as [[[??]?]?], b as [[[??]?]?], c as [[[??]?]?]; simpl.
  tuple_eq.
Qed.

Lemma add_counts_0 a : add_counts a (0, 0, 0, 0) = a.
Proof. destruct a as [[[??]?]?]; simpl. tuple_eq. Qed.

Lemma count_test_counters self t :
  counters (count_test self t).1 =
  add_counts (counters self) (class_counts [t]).
Proof.
  unfold class_counts. rewrite !count_if_cons, !count_if_nil.
  destruct (classes_exhaustive t) as [Hp | [Hf | [Hw | Hu]]].
  - rewrite (count_test_passed _ _ Hp).
    rewrite (decide_True _ _ Hp).
    rewrite decide_False by (intros []; done).
    rewrite decide_False by (intros []; done).
    unfold counters; simpl. tuple_eq.
  - rewrite (count_test_failed _ _ Hf).
    rewrite decide_False by apply Hf.
    rewrite (decide_True _ _ Hf).
    rewrite decide_False by (intros (? & ? & ?); done).
    unfold counters; simpl. tuple_eq.
  - rewrite (count_test_warned _ _ Hw).
    rewrite decide_False by apply Hw.
    rewrite decide_False by apply Hw.
    rewrite (decide_True _ _ Hw).
    unfold counters; simpl. tuple_eq.
  - rewrite (count_test_unclassified _ _ Hu).
    apply unclassified_not_counted in Hu as (Hp & Hf & Hw).
    rewrite !decide_False by done.
    unfold counters; simpl. tuple_eq.
Qed.

Lemma count_test_frame self t :
  start_time (count_test self t).1 = start_time self ∧
  validate_sections (count_test self t).1 = validate_sections self ∧
  results (count_test self t).1 = results self.
Proof.
  unfold count_test.
  repeat match goal with |- context [if ?b then _ else _] => destruct b end;
    done.
Qed.

Lemma update_test_counts_counters self tests :
  counters (_update_test_counts self tests).1 =
  add_counts (counters self) (class_counts tests).
Proof.
  revert self. induction tests as [|t tests IH]; intros self.
  - symmetry. apply add_counts_0.
  - simpl. destruct (count_test self t) as [self1 t1] eqn:E1.
    destruct (_update_test_counts self1 tests) as [self2 rest2] eqn:E2.
    simpl. specialize (IH self1). rewrite E2 in IH. simpl in IH. rewrite IH.
    pose proof (count_test_counters self t) as H1. rewrite E1 in H1.
    simpl in H1. rewrite H1.
    change (t :: tests) with ([t] ++ tests)%list.
    by rewrite class_counts_app, add_counts_assoc.
Qed.

Lemma update_test_counts_frame self tests :
  start_time (_update_test_counts self tests).1 = start_time self ∧
  validate_sections (_update_test_counts self tests).1 = validate_sections self ∧
  results (_update_test_counts self tests).1 = results self.
Proof.
  revert self. induction tests as [|t tests IH]; intros self; simpl; [done|].
  destruct (count_test self t) as [self1 t1] eqn:E1.
  destruct (_update_test_counts self1 tests) as [self2 rest2] eqn:E2.
  simpl. specialize (IH self1). rewrite E2 in IH. simpl in IH.
  pose proof (count_test_frame self t) as H1. rewrite E1 in H1. simpl in H1.
  destruct IH as (-> & -> & ->). done.
Qed.

Lemma update_groups_counters self groups :
  counters (update_groups self groups).1 =
  add_counts (counters self) (class_counts (concat groups)).
Proof.
  revert self. induction groups as [|g groups IH]; intros self.
  - symmetry. apply add_counts_0.
  - simpl. destruct (_update_test_counts self g) as [self1 g1] eqn:E1.
    destruct (update_groups self1 groups) as [self2 rest2] eqn:E2.
    simpl. specialize (IH self1). rewrite E2 in IH. simpl in IH. rewrite IH.
    pose proof (update_test_counts_counters self g) as H1. rewrite E1 in H1.
    simpl in H1. by rewrite H1, class_counts_app, add_counts_assoc.
Qed.

Lemma update_groups_sections self groups :
  validate_sections (update_groups self groups).1 = validate_sections self.
Proof.
  revert self. induction groups as [|g groups IH]; intros self; simpl; [done|].
  destruct (_update_test_counts self g) as [self1 g1] eqn:E1.
  destruct (update_groups self1 groups) as [self2 rest2] eqn:E2.
  simpl. specialize (IH self1). rewrite E2 in IH. simpl in IH. rewrite IH.
  pose proof (update_test_counts_frame self g) as H1. rewrite E1 in H1.
  simpl in H1. tauto.
Qed.

Lemma when_enabled_counters section key groups self :
  counters (when_enabled section (run_section key groups) self) =
  add_counts (counters self)
    (class_counts (section_tests (validate_sections self) section groups))
  ∧ validate_sections (when_enabled section (run_section key groups) self) =
    validate_sections self.
Proof.
  unfold when_enabled, section_tests, run_section.
  destruct (bool_decide (section ∈ validate_sections self)).
  - pose proof (update_groups_counters self groups) as Hc.
    pose proof (update_groups_sections self groups) as Hs.
    destruct (update_groups self groups) as [self1 groups1]. simpl in *.
    by rewrite <- Hc.
  - split; [|done]. symmetry. apply add_counts_0.
Qed.

Lemma run_sections_counters c self :
  counters (run_sections c self) =
  add_counts (counters self)
    (class_counts (enabled_tests (validate_sections self) c)).
Proof.
  unfold run_sections, enabled_tests.
  unfold _run_env_validation, _run_security_tests, _run_performance_tests,
    _run_api_tests, _run_database_tests, _run_deployment_checks,
    _run_logging_tests, _run_monitoring_tests.
  repeat match goal with
  | |- context [when_enabled ?s (run_section ?k ?g) ?x] =>
      is_var x;
      let Hc := fresh "Hc" in let Hs := fresh "Hs" in
      destruct (when_enabled_counters s k g x) as [Hc Hs];
      generalize dependent (when_enabled s (run_section k g) x); intros
  end.
  rewrite !class_counts_app, <- !add_counts_assoc.
  congruence.
Qed.

Lemma add_counts_0_l a : add_counts (0, 0, 0, 0) a = a.
Proof. by destruct a as [[[??]?]?]. Qed.

(** The counters after the sections of a fresh validator. *)
Lemma run_sections_init_counters now0 sections c :
  counters (run_sections c (__init__ now0 sections)) =
  class_counts (enabled_tests sections c).
Proof.
  rewrite run_sections_counters.
  change (validate_sections (__init__ now0 sections)) with sections.
  change (counters (__init__ now0 sections)) with (0, 0, 0, 0).
  apply add_counts_0_l.
Qed.

Lemma counters_inv self (p f w t : nat) :
  counters self = (p, f, w, t) →
  passed_tests self = p ∧ failed_tests self = f ∧
  warning_tests self = w ∧ total_tests self = t.
Proof. unfold counters. intros [= -> -> -> ->]. done. Qed.

Lemma summary_of_add_summary now self self' :
  _add_summary now self = Ok self' →
  ∃ s, summary_of self' = Some s ∧
    tests_passed s = passed_tests self ∧
    tests_failed s = failed_tests self ∧
    tests_warned s = warning_tests self ∧
    s_total_tests s = total_tests self ∧
    production_ready s = bool_decide (failed_tests self = 0) ∧
    pass_percentage s =
      if bool_decide (0 < total_tests self)
      then (inject_Z (Z.of_nat (passed_tests self))
            / inject_Z (Z.of_nat (total_tests self)) * 100)%Q
      else 0%Q.
Proof.
  unfold _add_summary, truediv. intros H.
  destruct (bool_decide (0 < total_tests self)) eqn:Ht; simpl in H.
  - destruct (bool_decide (Z.of_nat (total_tests self) = 0%Z)); simpl in H;
      [done|].
    injection H as <-. unfold summary_of, set_result; simpl.
    rewrite lookup_insert_eq. eauto 10.
  - injection H as <-. unfold summary_of, set_result; simpl.
    rewrite lookup_insert_eq. eauto 10.
Qed.

(** Computing the summary never raises. *)
Lemma add_summary_total now self :
  ∃ self', _add_summary now self = Ok self'.
Proof.
  unfold _add_summary, truediv.
  destruct (bool_decide (0 < total_tests self)) eqn:Ht; simpl; [|eauto].
  apply bool_decide_eq_true in Ht.
  rewrite (bool_decide_eq_false_2 (Z.of_nat (total_tests self) = 0%Z)) by lia.
  simpl. eauto.
Qed.




(** C1. For every orchestrator run the summary's [production_ready] is true
    exactly when [tests_failed] is 0, and [tests_failed] is the number of
    tests of the enabled sections that the tally counts as failed; the same
    equivalence holds of the summary of any validator state.  The number of
    warnings plays no part: a run none of whose tests is counted as failed is
    production ready whatever its warnings, and changing the warning counter
    of a state alone leaves [production_ready] as it was. *)
Theorem production_ready_iff_no_failed_tests
    (now0 now : Q) (sections : list string) (c : CheckerResults) :
  (∃ self s,
     run_validations now c (__init__ now0 sections) = Ok self ∧
     summary_of self = Some s ∧
     tests_failed s = count_if counted_failed (enabled_tests sections c) ∧
     tests_warned s = count_if counted_warned (enabled_tests sections c) ∧
     (production_ready s = true ↔ tests_failed s = 0) ∧
     (Forall (λ t, ¬ counted_failed t) (enabled_tests sections c) →
      production_ready s = true)) ∧
  (∀ self0, ∃ self1 s1,
     _add_summary now self0 = Ok self1 ∧ summary_of self1 = Some s1 ∧
     (production_ready s1 = true ↔ tests_failed s1 = 0) ∧
     ∀ w, ∃ self2 s2,
       _add_summary now
         (with_counts self0 (passed_tests self0) (failed_tests self0) w
            (total_tests self0)) = Ok self2 ∧
       summary_of self2 = Some s2 ∧ tests_warned s2 = w ∧
       production_ready s2 = production_ready s1).
Proof.
  split.
  - unfold run_validations.
    destruct (add_summary_total now (run_sections c (__init__ now0 sections)))
      as [self Hself].
    destruct (summary_of_add_summary _ _ _ Hself)
      as (s & Hs & _ & Hf & Hw & _ & Hr & _).
    pose proof (run_sections_init_counters now0 sections c) as Hc.
    unfold class_counts in Hc.
    apply counters_inv in Hc as (_ & Hcf & Hcw & _).
    exists self, s. rewrite Hf, Hw, Hr, Hcf, Hcw.
    repeat split; try done.
    + by rewrite bool_decide_eq_true.
    + by rewrite bool_decide_eq_true.
    + intros Hall. apply bool_decide_eq_true_2. by apply count_if_0.
  - intros self0.
    destruct (add_summary_total now self0) as [self1 Hself1].
    destruct (summary_of_add_summary _ _ _ Hself1)
      as (s1 & Hs1 & _ & Hf1 & _ & _ & Hr1 & _).
    exists self1, s1. repeat split; try done.
    + rewrite Hr1, Hf1. by rewrite bool_decide_eq_true.
    + rewrite Hr1, Hf1. by rewrite bool_decide_eq_true.
    + intros w.
      destruct (add_summary_total now
        (with_counts self0 (passed_tests self0) (failed_tests self0) w
           (total_tests self0))) as [self2 Hself2].
      destruct (summary_of_add_summary _ _ _ Hself2)
        as (s2 & Hs2 & _ & _ & Hw2 & _ & Hr2 & _).
      exists self2, s2. by rewrite Hr2, Hr1.
Qed.



End orchestrator.

(** ** The schema validator *)

Section schema.
Import api_validator.

Implicit Types (schema : Schema) (data : Json) (p : list Step) (m : string).

Lemma string_app_assoc (a b c : string) : (a ++ b) ++ c = a ++ (b ++ c).
Proof.
  induction a as [|x a IH]; [done|].
  change (String x ((a ++ b) ++ c) = String x (a ++ (b ++ c))).
  by rewrite IH.
Qed.

(** Induction over schemas, with the hypothesis for every nested schema. *)
Lemma Schema_nested_ind (P : Schema → Prop) :
  (∀ t, P (SType t)) →
  (∀ items, Forall P items → P (SList items)) →
  (∀ fields, Forall (λ ks, P ks.2) fields → P (SDict fields)) →
  (∀ truthy, P (SOther truthy)) →
  ∀ schema, P schema.
Proof.
  intros Htype Hlist Hdict Hother. fix IH 1. intros [t|items|fields|b].
  - apply Htype.
  - apply Hlist. induction items as [|s items IHitems]; constructor.
    + apply IH.
    + apply IHitems.
  - apply Hdict. induction fields as [|[k s] fields IHfields]; constructor.
    + apply IH.
    + apply IHfields.
  - apply Hother.
Qed.

Lemma validate_schema_list data schema0 rest :
  validate_schema data (SList (schema0 :: rest)) =
  match data with
  | JList items => validate_items schema0 0 items
  | _ => (false, "Expected list, got " ++ type_name (type_of data))
  end.
Proof. by destruct data. Qed.

Lemma validate_schema_dict data fields :
  validate_schema data (SDict fields) =
  match data with
  | JDict d => validate_keys d fields
  | _ => (false, "Expected dict, got " ++ type_name (type_of data))
  end.
Proof. by destruct data. Qed.

Lemma is_schema_descriptor_dict fields :
  is_schema_descriptor (SDict fields) = true ↔
  Forall (λ ks, is_schema_descriptor ks.2 = true) fields.
Proof.
  induction fields as [|[k s] fields IH]; [by split|].
  rewrite Forall_cons. rewrite <- IH. simpl.
  rewrite andb_true_iff. done.
Qed.

Lemma Matches_list_inv schema0 items :
  Matches (SList [schema0]) (JList items) → Forall (Matches schema0) items.
Proof. by inversion 1. Qed.

Lemma Matches_dict_inv fields d :
  Matches (SDict fields) (JDict d) →
  Forall (λ ks, ∃ v, dict_get d ks.1 = Some v ∧ Matches ks.2 v) fields.
Proof. by inversion 1. Qed.

Lemma validate_items_spec schema0 :
  (∀ data, validated schema0 data) →
  ∀ items i,
    (Forall (Matches schema0) items ∧
     validate_items schema0 i items = (true, ""))
    ∨ (¬ Forall (Matches schema0) items ∧
       ∃ j item p m,
         items !! j = Some item ∧ Forall (Matches schema0) (take j items) ∧
         FirstFailure schema0 item p m ∧ m ≠ "" ∧
         validate_items schema0 i items =
           (false, "item[" ++ pretty (i + j) ++ "] -> " ++ render_path p ++ m)).
Proof.
  intros Hitem. induction items as [|item items IH]; intros i.
  - left. by split.
  - simpl. destruct (Hitem item) as [[Hm ->] | [Hn (p & m & Hff & Hne & ->)]].
    + simpl. destruct (IH (S i))
        as [[Hall ->] | [Hnall (j & x & p & m & Hj & Htk & Hff & Hne & ->)]].
      * left. by split; [constructor|].
      * right. split; [by intros [? ?]%Forall_cons|].
        exists (S j), x, p, m.
        replace (i + S j) with (S i + j) by lia.
        split_and!; [exact Hj | simpl; by constructor | done | done | done].
    + right. split; [by intros [? ?]%Forall_cons|].
      exists 0, item, p, m. rewrite Nat.add_0_r.
      split_and!; [done | simpl; constructor | done | done | done].
Qed.

Lemma validate_keys_spec d fields :
  Forall (λ ks, ∀ data, validated ks.2 data) fields →
  (Forall (λ ks, ∃ v, dict_get d ks.1 = Some v ∧ Matches ks.2 v) fields ∧
   validate_keys d fields = (true, ""))
  ∨ (¬ Forall (λ ks, ∃ v, dict_get d ks.1 = Some v ∧ Matches ks.2 v) fields ∧
     ∃ before key val_schema after,
       fields = (before ++ (key, val_schema) :: after)%list ∧
       Forall (λ ks, ∃ v, dict_get d ks.1 = Some v ∧ Matches ks.2 v) before ∧
       ((dict_get d key = None ∧
         validate_keys d fields =
           (false, "Missing required key: '" ++ key ++ "'"))
        ∨ (∃ v p m,
             dict_get d key = Some v ∧ FirstFailure val_schema v p m ∧
             m ≠ "" ∧
             validate_keys d fields =
               (false, "'" ++ key ++ "' -> " ++ render_path p ++ m)))).
Proof.
  induction fields as [|[key val_schema] fields IH]; intros Hall.
  - left. by split.
  - apply Forall_cons in Hall as [Hhere Hrest]. simpl in Hhere. simpl.
    destruct (dict_get d key) as [v|] eqn:Hget.
    + destruct (Hhere v) as [[Hm ->] | [Hn (p & m & Hff & Hne & ->)]].
      * simpl. destruct (IH Hrest)
          as [[Hok ->] | [Hnok (before & k & s & after & -> & Hb & Hcase)]].
        -- left. split; [|done]. constructor; [|done]. simpl. eauto.
        -- right. split; [by intros [? ?]%Forall_cons|].
           exists ((key, val_schema) :: before), k, s, after.
           split; [done|]. split.
           { constructor; [|done]. simpl. eauto. }
           destruct Hcase as [[Hk ->] | (w & p & m & Hk & Hff & Hne & ->)];
             [left | right]; eauto 10.
      * right. split.
        { intros [(w & Hw & Hmw) _]%Forall_cons. simpl in *. congruence. }
        exists [], key, val_schema, fields. split; [done|].
        split; [constructor|]. right. exists v, p, m. by simpl.
    + right. split.
      { intros [(w & Hw & _) _]%Forall_cons. simpl in *. congruence. }
      exists [], key, val_schema, fields. split; [done|].
      split; [constructor|]. by left.
Qed.

Lemma validate_schema_validated schema :
  is_schema_descriptor schema = true → ∀ data, validated schema data.
Proof.
  induction schema as [t|items IH|fields IH|b] using Schema_nested_ind;
    intros Hwf data.
  - unfold validated. simpl. destruct (isinstance data t) eqn:Hinst; simpl.
    + left. by split; [constructor|].
    + right. split; [inversion 1; congruence|].
      eexists [], _.
      split_and!; [by constructor | by cbv | reflexivity].
  - destruct items as [|schema0 [|? ?]]; try done.
    apply Forall_cons in IH as [IH _]. simpl in Hwf. specialize (IH Hwf).
    unfold validated. rewrite validate_schema_list.
    destruct data as [| | | | |items|];
      try (right; split; [inversion 1|];
           eexists [], _;
           split_and!; [by constructor | by cbv | reflexivity]).
    destruct (validate_items_spec schema0 IH items 0)
      as [[Hall ->] | [Hnall (j & x & p & m & Hj & Htk & Hff & Hne & ->)]].
    + left. by split; [constructor|].
    + right. split; [by intros ?%Matches_list_inv|].
      exists (AtItem j :: p), m.
      split_and!; [by econstructor | done |].
      simpl. by rewrite !string_app_assoc.
  - apply is_schema_descriptor_dict in Hwf.
    assert (Forall (λ ks, ∀ data, validated ks.2 data) fields) as Hfields.
    { rewrite Forall_forall in IH, Hwf. apply Forall_forall.
      intros ks Hin. by apply IH, Hwf. }
    unfold validated. rewrite validate_schema_dict.
    destruct data as [| | | | | |d];
      try (right; split; [inversion 1|];
           eexists [], _;
           split_and!; [by constructor | by cbv | reflexivity]).
    destruct (validate_keys_spec d fields Hfields)
      as [[Hok ->] | [Hnok (before & k & s & after & -> & Hb & Hcase)]].
    + left. by split; [constructor|].
    + right. split; [by intros ?%Matches_dict_inv|].
      destruct Hcase as [[Hk ->] | (w & p & m & Hk & Hff & Hne & ->)].
      * eexists [], _.
        split_and!; [by constructor | by cbv | reflexivity].
      * exists (AtKey k :: p), m.
        split_and!; [by econstructor | done |].
        simpl. by rewrite !string_app_assoc.
  - done.
Qed.

(** C2. For a SchemaDescriptor (a type tag, a one-element list or a mapping,
    recursively) and any value, [validate_schema] returns [(True, "")] exactly
    when the value recursively matches the schema; otherwise it returns
    [(False, m)] where [m] is not empty and is the rendered path to the first
    failing location (steps ['key' -> ] and [item[i] -> ]) followed by the
    description of the failure there. *)
Theorem validate_schema_matches_or_reports_first_failure schema data :
  is_schema_descriptor schema = true →
  (validate_schema data schema = (true, "") ↔ Matches schema data) ∧
  (¬ Matches schema data →
   ∃ p m,
     FirstFailure schema data p m ∧ m ≠ "" ∧ render_path p ++ m ≠ "" ∧
     validate_schema data schema = (false, render_path p ++ m)).
Proof.
  intros Hwf.
  destruct (validate_schema_validated schema Hwf data)
    as [[Hm Hv] | [Hn (p & m & Hff & Hne & Hv)]].
  - split; [by split|]. by intros [].
  - split.
    + rewrite Hv. split; [by intros [=]|by intros ?].
    + intros _. exists p, m. repeat split; try done.
      intros Happ. apply Hne.
      destruct (render_path p); [done|by simpl in Happ].
Qed.

End schema.

(** ** Instances of the theorems above at concrete inputs *)

Section instances.
Import validate_production_readiness api_validator.


(** The schema [{"id": int, "tags": [str]}] against a body whose second tag
    is a number. *)
Lemma validate_schema_matches_or_reports_first_failure_witness :
  is_schema_descriptor
    (SDict [("id", SType T_int); ("tags", SList [SType T_str])]) = true
  ∧ (validate_schema
       (JDict [("id", JInt 7); ("tags", JList [JStr "a"; JInt 3])])
       (SDict [("id", SType T_int); ("tags", SList [SType T_str])])
     = (true, "")
     ↔ Matches (SDict [("id", SType T_int); ("tags", SList [SType T_str])])
         (JDict [("id", JInt 7); ("tags", JList [JStr "a"; JInt 3])])).
Proof.
  split; [reflexivity|].
  apply (validate_schema_matches_or_reports_first_failure
           (SDict [("id", SType T_int); ("tags", SList [SType T_str])])
           (JDict [("id", JInt 7); ("tags", JList [JStr "a"; JInt 3])])).
  reflexivity.
Defined.

Example validate_schema_reports_item_path :
  validate_schema
    (JDict [("id", JInt 7); ("tags", JList [JStr "a"; JInt 3])])
    (SDict [("id", SType T_int); ("tags", SList [SType T_str])])
  = (false, "'tags' -> item[1] -> Expected str, got int").
Proof. reflexivity. Qed.

End instances.

(** ** The load tester *)

Section load_tester.
Import load_tester.
Context {float_text : FloatText}.

(** C9. With linear interpolation over the sorted input,
    [get_percentile([10,20,30,40], 50)] is 25 and [get_percentile([5], 99)]
    is 5. *)
Theorem get_percentile_examples :
  (∃ q, get_percentile [10; 20; 30; 40]%Q 50 = Ok q ∧ (q == 25)%Q) ∧
  (∃ q, get_percentile [5]%Q 99 = Ok q ∧ (q == 5)%Q).
Proof.
  split; eexists; (split; [vm_compute; reflexivity | reflexivity]).
Qed.

Lemma getitem_in_range {A} (l : list A) (i : Z) :
  (0 <= i < Z.of_nat (length l))%Z → ∃ x, getitem l i = Ok x ∧ x ∈ l.
Proof.
  intros Hi. unfold getitem.
  rewrite (bool_decide_eq_false_2 (i < 0)%Z) by lia.
  rewrite bool_decide_eq_true_2 by done.
  destruct (lookup_lt_is_Some_2 l (Z.to_nat i)) as [x Hx]; [lia|].
  rewrite Hx. exists x. split; [done|]. by eapply list_elem_of_lookup_2.
Qed.

Lemma length_sorted data : length (sorted data) = length data.
Proof. unfold sorted. by rewrite merge_sort_Permutation. Qed.

(** The interpolation index lies within the list. *)
Lemma percentile_index_bounds (n : Z) (percentile : Q) :
  (1 <= n)%Z → (0 <= percentile)%Q → (percentile <= 100)%Q →
  (0 <= int_of_float (inject_Z (n - 1) * (percentile / 100)) <= n - 1)%Z.
Proof.
  intros Hn H0 H100.
  set (idx := (inject_Z (n - 1) * (percentile / 100))%Q).
  assert (0 <= percentile / 100)%Q as Hf0.
  { apply Qle_shift_div_l; [reflexivity|]. by rewrite Qmult_0_l. }
  assert (percentile / 100 <= 1)%Q as Hf1.
  { apply Qle_shift_div_r; [reflexivity|]. by rewrite Qmult_1_l. }
  assert (0 <= inject_Z (n - 1))%Q as Hn0.
  { change 0%Q with (inject_Z 0). rewrite <- Zle_Qle. lia. }
  assert (0 <= idx)%Q as Hidx0 by (by apply Qmult_le_0_compat).
  assert (idx <= inject_Z (n - 1))%Q as Hidx1.
  { unfold idx. rewrite <- (Qmult_1_r (inject_Z (n - 1))) at 2.
    rewrite (Qmult_comm (inject_Z (n - 1)) (percentile / 100)).
    rewrite (Qmult_comm (inject_Z (n - 1)) 1).
    by apply Qmult_le_compat_r. }
  unfold int_of_float. fold idx.
  assert (Qle_bool 0 idx = true) as -> by (by apply Qle_bool_iff).
  split.
  - change 0%Z with (Qfloor (inject_Z 0)). by apply Qfloor_resp_le.
  - rewrite <- (Qfloor_Z (n - 1)). by apply Qfloor_resp_le.
Qed.

(** For a percentile between 0 and 100 [get_percentile] returns, and what it
    returns for a non-empty list with an in-range index is read from the
    sorted data. *)
Lemma get_percentile_total data percentile :
  (0 <= percentile)%Q → (percentile <= 100)%Q →
  ∃ q, get_percentile data percentile = Ok q.
Proof.
  intros H0 H100. unfold get_percentile.
  case_bool_decide as Hnil; [eauto|].
  assert (1 <= Z.of_nat (length (sorted data)))%Z as Hn.
  { rewrite length_sorted. destruct data; [done|]. simpl. lia. }
  case_bool_decide as H1.
  { destruct (getitem_in_range (sorted data) 0) as (x & -> & _); [lia|eauto]. }
  pose proof (percentile_index_bounds _ percentile Hn H0 H100) as Hb.
  set (n := Z.of_nat (length (sorted data))) in *.
  set (lower := int_of_float (inject_Z (n - 1) * (percentile / 100))) in *.
  case_bool_decide as Hup.
  - destruct (getitem_in_range (sorted data) lower) as (x & -> & _);
      [lia|eauto].
  - destruct (getitem_in_range (sorted data) lower) as (x & -> & _); [lia|].
    destruct (getitem_in_range (sorted data) (lower + 1)) as (y & -> & _);
      [lia|]. simpl. eauto.
Qed.

Lemma compute_statistics_total times :
  ∃ st, compute_statistics times = Ok st ∧ (times = [] → st = None).
Proof.
  unfold compute_statistics. case_bool_decide as Hnil; [eauto|].
  destruct (get_percentile_total times 95) as [p95 ->]; [done..|].
  destruct (get_percentile_total times 99) as [p99 ->]; [done..|].
  simpl. eexists. split; [done|]. done.
Qed.

Lemma attempt_counts url out r r' :
  attempt url out r = Ok r' →
  requests r' = S (requests r) ∧
  successful r' + failed r' = S (successful r + failed r).
Proof.
  unfold attempt. destruct out.1 as [response|e].
  - case_bool_decide; intros [= <-]; simpl; lia.
  - destruct e; try done. intros [= <-]; simpl; lia.
Qed.

(** What one pass through the [try] statement does to the counters. *)
Lemma attempt_spec url out r :
  match out.1 with
  | Responded response =>
      ∃ r', attempt url out r = Ok r' ∧ requests r' = S (requests r) ∧
        if bool_decide (status_code response < 400)%Z
        then successful r' = S (successful r) ∧ failed r' = failed r
        else successful r' = successful r ∧ failed r' = S (failed r)
  | Raised (RequestException _) =>
      ∃ r', attempt url out r = Ok r' ∧ requests r' = S (requests r) ∧
        successful r' = successful r ∧ failed r' = S (failed r)
  | Raised e => attempt url out r = Raise e
  end.
Proof.
  unfold attempt. destruct out.1 as [response|e].
  - case_bool_decide; eexists; (split; [reflexivity|]); by simpl.
  - destruct e; try done. eexists; (split; [reflexivity|]); by simpl.
Qed.

Lemma attempt_handled url out r :
  handled out.1 →
  ∃ r', attempt url out r = Ok r' ∧ requests r' = S (requests r).
Proof.
  intros Hh. pose proof (attempt_spec url out r) as Hs.
  destruct out.1 as [response|e].
  - destruct Hs as (r' & ? & ? & _). by exists r'.
  - destruct Hh as [what ->]. destruct Hs as (r' & ? & ? & _). by exists r'.
Qed.

(** The loops keep [successful + failed = requests]. *)
Lemma run_loop_counts base_url endpoints get ticks :
  ∀ ctl k r,
    successful r + failed r = requests r →
    let r' := (run_loop base_url endpoints get ticks ctl k r).1 in
    successful r' + failed r' = requests r'.
Proof.
  induction ticks as [|tick ticks IH]; intros ctl k r Hinv.
  - destruct ctl as [|[|endpoint rest]]; simpl; try done.
    destruct (attempt _ _ r) as [r1|e] eqn:Ha; [|done].
    apply attempt_counts in Ha. simpl. lia.
  - destruct ctl as [|[|endpoint rest]]; simpl.
    + destruct tick; [by apply IH | done].
    + destruct tick; [by apply IH | done].
    + destruct (attempt _ _ r) as [r1|e] eqn:Ha; [|done].
      apply attempt_counts in Ha.
      destruct tick; (apply IH; lia).
Qed.

(** When every outcome is a response or a [requests] exception, the loops
    are left by the clock. *)
Lemma run_loop_returns base_url endpoints get ticks :
  (∀ k url, handled (get k url).1) →
  ∀ ctl k r, (run_loop base_url endpoints get ticks ctl k r).2 = None.
Proof.
  intros Hh. induction ticks as [|tick ticks IH]; intros ctl k r.
  - destruct ctl as [|[|endpoint rest]]; simpl; try done.
    by destruct (attempt_handled (base_url ++ endpoint)
                   (get k (base_url ++ endpoint)) r (Hh _ _)) as (r1 & -> & _).
  - destruct ctl as [|[|endpoint rest]]; simpl.
    + destruct tick; [apply IH | done].
    + destruct tick; [apply IH | done].
    + destruct (attempt_handled (base_url ++ endpoint)
                  (get k (base_url ++ endpoint)) r (Hh _ _)) as (r1 & -> & _).
      destruct tick; apply IH.
Qed.

Lemma run_loop_for_done base_url endpoints get ticks k r :
  run_loop base_url endpoints get ticks (InFor []) k r =
  run_loop base_url endpoints get ticks AtWhile k r.
Proof. by destruct ticks as [|[] ?]. Qed.

(** While the clock stays before the deadline the [for] loop visits every
    endpoint that is left. *)
Lemma run_loop_for base_url endpoints get ticks :
  (∀ k url, handled (get k url).1) →
  ∀ rest k r, ∃ r',
    run_loop base_url endpoints get (replicate (length rest) true ++ ticks)
      (InFor rest) k r =
    run_loop base_url endpoints get ticks AtWhile (k + length rest) r' ∧
    requests r' = requests r + length rest.
Proof.
  intros Hh. induction rest as [|endpoint rest IH]; intros k r.
  - exists r. cbn [length replicate app]. rewrite !Nat.add_0_r.
    split; [apply run_loop_for_done|done].
  - cbn [length replicate app run_loop].
    destruct (attempt_handled (base_url ++ endpoint)
                (get k (base_url ++ endpoint)) r (Hh _ _)) as (r1 & -> & Hr1).
    destruct (IH (S k) r1) as (r' & -> & Hr').
    exists r'. replace (k + S (length rest)) with (S k + length rest) by lia.
    split; [done|lia].
Qed.

(** [q] rounds of the [while] loop. *)
Lemma run_loop_rounds base_url endpoints get :
  (∀ k url, handled (get k url).1) →
  ∀ q k r, ∃ r',
    run_loop base_url endpoints get
      (replicate (q * S (length endpoints)) true) AtWhile k r = (r', None) ∧
    requests r' = requests r + q * length endpoints.
Proof.
  intros Hh. induction q as [|q IH]; intros k r.
  - exists r. split; [done|simpl; lia].
  - replace (S q * S (length endpoints))
      with (S (length endpoints + q * S (length endpoints))) by lia.
    cbn [replicate run_loop]. rewrite replicate_add.
    destruct (run_loop_for base_url endpoints get
                (replicate (q * S (length endpoints)) true) Hh endpoints k r)
      as (r1 & -> & Hr1).
    destruct (IH (k + length endpoints) r1) as (r' & -> & Hr').
    exists r'. split; [done|lia].
Qed.

Lemma counted_counts base_url endpoints w :
  successful (counted base_url endpoints w)
  + failed (counted base_url endpoints w)
  = requests (counted base_url endpoints w).
Proof. by apply run_loop_counts. Qed.

(** [run] returns what the worker counted, or raises. *)
Lemma run_spec base_url endpoints w :
  if returned base_url endpoints w then
    ∃ r, run base_url endpoints w = Ok r ∧
      requests r = requests (counted base_url endpoints w) ∧
      successful r = successful (counted base_url endpoints w) ∧
      failed r = failed (counted base_url endpoints w)
  else ∃ e, run base_url endpoints w = Raise e.
Proof.
  unfold returned, run, counted.
  destruct (run_loop _ _ _ _ _ _ _) as [r [e|]]; cbn [fst snd].
  - by exists e.
  - destruct (compute_statistics_total (response_times r)) as (st & -> & _).
    by eexists.
Qed.

Lemma combine_sums all_results :
  ∃ times errs,
    combine all_results =
    (sum_list_with requests all_results,
     sum_list_with successful all_results,
     sum_list_with failed all_results, times, errs).
Proof.
  unfold combine.
  assert (∀ rq su fa times errs, ∃ times' errs',
    foldl (λ '(rq, su, fa, times, errs) worker_result,
             (rq + requests worker_result, su + successful worker_result,
              fa + failed worker_result,
              (times ++ response_times worker_result)%list,
              (errs ++ errors worker_result)%list))
          (rq, su, fa, times, errs) all_results =
    (rq + sum_list_with requests all_results,
     su + sum_list_with successful all_results,
     fa + sum_list_with failed all_results, times', errs')) as Hfold.
  { induction all_results as [|x l IH]; intros rq su fa times errs.
    - exists times, errs. simpl. by rewrite !Nat.add_0_r.
    - simpl. destruct (IH (rq + requests x) (su + successful x)
        (fa + failed x) (times ++ response_times x)%list
        (errs ++ errors x)%list) as (times' & errs' & ->).
      exists times', errs'. by rewrite !Nat.add_assoc. }
  destruct (Hfold 0 0 0 [] []) as (times & errs & ->). by exists times, errs.
Qed.

(** The collected results are those of the workers that returned. *)
Lemma collect_counts base_url endpoints w :
  Forall (λ r, successful r + failed r = requests r)
         (collect base_url endpoints w) ∧
  sum_list_with requests (collect base_url endpoints w) =
  sum_list_with (λ i, requests (worker_counted base_url endpoints w i))
    (filter (λ i, worker_returned base_url endpoints w i) (completion w)).
Proof.
  unfold collect, worker_counted, worker_returned.
  induction (completion w) as [|i l [IH1 IH2]]; [by split|].
  assert (∀ (f : nat → option WorkerResults) x k,
    omap f (x :: k) =
    match f x with Some y => y :: omap f k | None => omap f k end) as ->
    by done.
  pose proof (run_spec (rstrip_slash base_url) endpoints (worker w i)) as Hs.
  pose proof (counted_counts (rstrip_slash base_url) endpoints (worker w i))
    as Hc.
  destruct (returned _ _ _) eqn:Hret.
  - destruct Hs as (r & -> & Hrq & Hsu & Hfa). cbv beta iota.
    rewrite filter_cons_True by (by rewrite Hret).
    split; [constructor; [lia|done]|].
    cbn [sum_list_with]. by rewrite Hrq, IH2.
  - destruct Hs as (e & ->). cbv beta iota.
    rewrite filter_cons_False by (rewrite Hret; intros []).
    by split.
Qed.

Lemma sum_counts (l : list WorkerResults) :
  Forall (λ r, successful r + failed r = requests r) l →
  sum_list_with successful l + sum_list_with failed l =
  sum_list_with requests l.
Proof. induction 1 as [|r l Hr _ IH]; simpl; lia. Qed.

Lemma filter_all {A} (P : A → Prop) `{∀ x, Decision (P x)} (l : list A) :
  (∀ x, P x) → filter P l = l.
Proof.
  intros HP. induction l as [|x l IH]; [done|].
  by rewrite filter_cons_True, IH.
Qed.

Lemma truediv_nonzero a b : b ≠ 0%Z → ∃ q, truediv a b = Ok q.
Proof. intros Hb. unfold truediv. rewrite bool_decide_eq_false_2 by done. eauto. Qed.

(** What [measure] stores under ["metrics"]. *)
Lemma measure_metrics base_url num_users duration max_response_time endpoints w
    res m :
  measure base_url num_users duration max_response_time endpoints w = Ok res →
  lt_metrics res = Some m →
  let all_results := collect base_url (choose_endpoints base_url endpoints w) w in
  m_requests m = sum_list_with requests all_results ∧
  m_successful m = sum_list_with successful all_results ∧
  m_failed m = sum_list_with failed all_results.
Proof.
  unfold measure. case_bool_decide as Hn; [done|].
  destruct (combine_sums
    (collect base_url (choose_endpoints base_url endpoints w) w))
    as (times & errs & ->).
  destruct (compute_statistics times) as [st|e]; [|done].
  destruct (truediv _ duration) as [tp|e]; [|done].
  cbn [mbind result_bind].
  set (sr := if bool_decide _ then _ else _).
  destruct sr as [rate|e]; [|done].
  cbn [mbind result_bind].
  intros Hres Hm. apply (f_equal (λ x, match x with Ok y => lt_metrics y
                                            | Raise _ => None end)) in Hres.
  cbn [lt_metrics] in Hres. rewrite Hm in Hres.
  injection Hres as <-. by cbn [m_requests m_successful m_failed].
Qed.

Lemma measure_returns base_url num_users duration max_response_time endpoints w :
  (0 < num_users)%Z → duration ≠ 0%Z →
  ∃ res m, measure base_url num_users duration max_response_time endpoints w
           = Ok res ∧ lt_metrics res = Some m ∧ lt_total res = 4.
Proof.
  intros Hn Hd. unfold measure. rewrite bool_decide_eq_false_2 by lia.
  destruct (combine_sums
    (collect base_url (choose_endpoints base_url endpoints w) w))
    as (times & errs & ->).
  destruct (compute_statistics_total times) as (st & -> & _).
  destruct (truediv_nonzero
    (Z.of_nat (sum_list_with requests
      (collect base_url (choose_endpoints base_url endpoints w) w)))
    duration Hd) as [tp ->].
  cbn [mbind result_bind].
  case_bool_decide as Hrq.
  - destruct (truediv_nonzero
      (Z.of_nat (sum_list_with successful
        (collect base_url (choose_endpoints base_url endpoints w) w)))
      (Z.of_nat (sum_list_with requests
        (collect base_url (choose_endpoints base_url endpoints w) w))))
      as [q ->]; [lia|].
    cbn [mbind result_bind]. by eexists _, _.
  - cbn [mbind result_bind]. by eexists _, _.
Qed.

(** C4. Every pass through the [try] statement adds one to [requests] and
    to exactly one of [successful] and [failed]; a [requests] exception
    counts as failed, any other exception leaves [run] with the counters as
    they are.  So every worker has [successful + failed = requests], and a
    worker whose clock allows [q] whole rounds counts [q] requests per
    endpoint.  The merged [requests] is the sum of what the workers whose
    [run] returned have counted, in whatever order their futures complete,
    and the merged [successful] plus [failed] is the merged [requests]; a
    worker whose [run] raised is left out with what it had counted, so the
    sum ranges over all workers when nothing but [requests] exceptions are
    raised.  The metrics exist as soon as the base URL answers, there is at
    least one user and the duration is not zero. *)
Theorem merged_counts_are_sums_over_returned_workers
    base_url num_users duration max_response_time endpoints w :
  completion w ≡ₚ seq 0 (Z.to_nat num_users) →
  let test_endpoints := choose_endpoints base_url endpoints w in
  let results :=
    run_load_test base_url num_users duration max_response_time endpoints w in
  let counted_by := worker_counted base_url test_endpoints w in
  let workers := seq 0 (Z.to_nat num_users) in
  (∀ url out r,
     match out.1 with
     | Responded response =>
         ∃ r', attempt url out r = Ok r' ∧ requests r' = S (requests r) ∧
           if bool_decide (status_code response < 400)%Z
           then successful r' = S (successful r) ∧ failed r' = failed r
           else successful r' = successful r ∧ failed r' = S (failed r)
     | Raised (RequestException _) =>
         ∃ r', attempt url out r = Ok r' ∧ requests r' = S (requests r) ∧
           successful r' = successful r ∧ failed r' = S (failed r)
     | Raised e => attempt url out r = Raise e
     end) ∧
  (∀ i, successful (counted_by i) + failed (counted_by i)
        = requests (counted_by i)) ∧
  (∀ i q,
     (∀ k url, handled (get (worker w i) k url).1) →
     clock (worker w i) = replicate (q * S (length test_endpoints)) true →
     worker_returned base_url test_endpoints w i = true ∧
     requests (counted_by i) = q * length test_endpoints) ∧
  (∀ m, lt_metrics results = Some m →
     m_requests m =
       sum_list_with (λ i, requests (counted_by i))
         (filter (λ i, worker_returned base_url test_endpoints w i) workers) ∧
     m_successful m + m_failed m = m_requests m ∧
     ((∀ i k url, handled (get (worker w i) k url).1) →
      m_requests m = sum_list_with (λ i, requests (counted_by i)) workers)) ∧
  (∀ response, base_get w = Responded response →
     (0 < num_users)%Z → duration ≠ 0%Z →
     ∃ m, lt_metrics results = Some m).
Proof.
  intros Hperm test_endpoints results counted_by workers. split_and!.
  - apply attempt_spec.
  - intros i. apply counted_counts.
  - intros i q Hh Hclock.
    subst counted_by. unfold worker_returned, worker_counted, returned, counted.
    rewrite Hclock.
    destruct (run_loop_rounds (rstrip_slash base_url) test_endpoints
                (get (worker w i)) Hh q 0 initial_results) as (r' & -> & Hr').
    by split.
  - intros m Hm. subst results. unfold run_load_test in Hm.
    destruct (base_get w) as [response|e]; [|by destruct e].
    destruct (measure _ _ _ _ _ _) as [res|e] eqn:Hres; [|done].
    destruct (measure_metrics _ _ _ _ _ _ _ _ Hres Hm) as (Hrq & Hsu & Hfa).
    destruct (collect_counts base_url test_endpoints w) as [Hall Hsum].
    fold test_endpoints in Hrq, Hsu, Hfa.
    assert (m_requests m =
            sum_list_with (λ i, requests (counted_by i))
              (filter (λ i, worker_returned base_url test_endpoints w i)
                      workers)) as Hmerged.
    { rewrite Hrq, Hsum. subst workers. by rewrite Hperm. }
    split_and!.
    + exact Hmerged.
    + rewrite Hsu, Hfa, Hrq. by apply sum_counts.
    + intros Hh. rewrite Hmerged. f_equal. apply filter_all.
      intros i. unfold worker_returned, returned.
      by rewrite run_loop_returns.
  - intros response Hbase Hn Hd. subst results. unfold run_load_test.
    rewrite Hbase.
    destruct (measure_returns base_url num_users duration max_response_time
                endpoints w Hn Hd) as (res & m & -> & Hm & _).
    eauto.
Qed.

End load_tester.

Section load_tester_instances.
Import load_tester.
#[local] Existing Instance exact_text.

(** Two workers against [example_world]: each makes two requests, one of
    which times out. *)
Lemma merged_counts_are_sums_over_returned_workers_witness :
  completion example_world ≡ₚ seq 0 (Z.to_nat 2) ∧
  ∃ m, lt_metrics (run_load_test "http://app/" 2 30 500 None example_world)
       = Some m ∧
       m_requests m = 4 ∧ m_successful m + m_failed m = 4.
Proof.
  assert (completion example_world ≡ₚ seq 0 (Z.to_nat 2)) as Hperm
    by apply perm_swap.
  split; [exact Hperm|].
  destruct (merged_counts_are_sums_over_returned_workers
              "http://app/" 2 30 500 None example_world Hperm)
    as (_ & _ & _ & Hsum & Hex).
  destruct (Hex _ eq_refl) as [m Hm]; [lia..|].
  exists m. split; [exact Hm|].
  destruct (Hsum m Hm) as (Hrq & Hsf & _).
  rewrite Hsf, Hrq. split; by vm_compute.
Defined.

(** Against the reading that the merged count is the sum over all workers
    of what they counted: the second worker of [example_faulty_world] has
    counted one request when its second one raises, and is left out of the
    merge. *)
Lemma merged_requests_leave_out_a_raising_worker :
  completion example_faulty_world ≡ₚ seq 0 (Z.to_nat 2) ∧
  requests (worker_counted "http://app/" ["/health"] example_faulty_world 0)
    = 2 ∧
  requests (worker_counted "http://app/" ["/health"] example_faulty_world 1)
    = 1 ∧
  worker_returned "http://app/" ["/health"] example_faulty_world 1 = false ∧
  ∃ m, lt_metrics
         (run_load_test "http://app/" 2 30 500 None example_faulty_world)
       = Some m ∧
       m_requests m = 2.
Proof.
  split; [apply perm_swap|].
  split_and!; [by vm_compute..|].
  eexists. split; [by vm_compute|done].
Qed.

End load_tester_instances.


(** ** The endpoint validator *)

Section endpoints.
Import validate_production_readiness api_validator.
Context {float_text : FloatText}.

Lemma auth_test_name o : t_name (auth_test o) = Some "Auth enforcement".
Proof. by destruct o. Qed.

(** The tests of [# Test 3] are named after the check they make. *)
Lemma schema_tests_names cfg response checked :
  schema_tests cfg response = Ok checked →
  Forall (λ t, t_name t = Some "Schema validation"
               ∨ t_name t = Some "Required fields check") checked.
Proof.
  unfold schema_tests. destruct (json response) as [response_json|];
    [|by intros [= <-]].
  assert (match required_fields cfg with
          | Some (f :: fs) =>
              missing ← missing_fields (f :: fs) response_json;
              Ok [ passed_test "Required fields check"
                     (bool_decide (missing = []))
                     (if bool_decide (missing = []) then "All fields present"
                      else "Missing: " ++ join ", " missing) ]
          | _ => Ok []
          end = Ok checked →
          Forall (λ t, t_name t = Some "Schema validation"
                       ∨ t_name t = Some "Required fields check") checked)
    as Hfields.
  { destruct (required_fields cfg) as [[|f fs]|]; try by intros [= <-].
    destruct (missing_fields _ _) as [missing|e]; [|done].
    intros [= <-]. constructor; [by right|done]. }
  destruct (expected_schema cfg) as [schema|]; [|done].
  destruct (schema_truthy schema); [|done].
  destruct (validate_schema _ _) as [valid msg].
  intros [= <-]. constructor; [by left|done].
Qed.

Lemma filter_auth_checked checked :
  Forall (λ t, t_name t = Some "Schema validation"
               ∨ t_name t = Some "Required fields check") checked →
  filter (λ t, t_name t = Some "Auth enforcement") checked = [].
Proof.
  induction 1 as [|t l Ht _ IH]; [done|].
  rewrite filter_cons_False; [done|].
  intros Hn. rewrite Hn in Ht. by destruct Ht.
Qed.

(** The headers of the repeated request: the request's headers without
    [Authorization]. *)
Lemma no_auth_headers_lookup self w k :
  no_auth_headers self w !! k =
  if bool_decide (k = "Authorization") then None
  else request_headers self w !! k.
Proof.
  unfold no_auth_headers. case_bool_decide as Hk.
  - apply map_lookup_filter_None. right. intros x _ Hx. by apply Hx.
  - destruct (request_headers self w !! k) as [x|] eqn:Hl.
    + by apply map_lookup_filter_Some.
    + apply map_lookup_filter_None. by left.
Qed.

(** When the primary request answers and [# Test 3] raises nothing, the
    result is the record built at the end of the [try] block. *)
Lemma validate_endpoint_responded self cfg w response checked :
  w_primary w (primary_request self cfg w) = Responded response →
  schema_tests cfg response = Ok checked →
  ∃ res, validate_endpoint self cfg w = Ok res ∧
    r_error res = None ∧
    r_passed res = all_passed (r_tests res) ∧
    ∃ tracking status content sla,
      r_tests res =
        ([tracking; status; content] ++ checked ++ auth_tests self cfg w
         ++ [sla])%list ∧
      t_name tracking = Some "Tracking ID support" ∧
      t_name status = Some "Status code check" ∧
      t_name content = Some "Content type check" ∧
      t_name sla = Some "SLA Response time".
Proof.
  intros Hp Hs. unfold validate_endpoint. rewrite Hp, Hs.
  cbn [mbind result_bind]. eexists. split; [reflexivity|].
  cbn [r_error r_passed r_tests]. split_and!; [done..|].
  by eexists _, _, _, _.
Qed.

Lemma all_passed_elem tests test :
  all_passed tests = true → test ∈ tests → t_passed test = PBool true.
Proof.
  unfold all_passed. intros Hall Hin.
  apply Is_true_true_2, forallb_True in Hall.
  rewrite Forall_forall in Hall. apply Hall in Hin.
  by apply bool_decide_unpack in Hin.
Qed.

Lemma missing_fields_iterable fields response_json :
  iterable response_json = true →
  ∃ missing, missing_fields fields response_json = Ok missing.
Proof.
  intros Hit. induction fields as [|f rest [missing IH]]; [by eexists|].
  cbn [missing_fields]. rewrite IH.
  destruct response_json; try done; cbn [contains mbind result_bind];
    by eexists.
Qed.

Lemma missing_fields_scalar f rest response_json :
  iterable response_json = false →
  missing_fields (f :: rest) response_json =
  Raise (TypeError ("argument of type '"
                    ++ type_name (type_of response_json)
                    ++ "' is not iterable")).
Proof. intros Hit. by destruct response_json. Qed.

Lemma schema_tests_returns cfg response :
  (∀ response_json, json response = Some response_json →
     fields_consulted cfg = true → iterable response_json = true) →
  ∃ checked, schema_tests cfg response = Ok checked.
Proof.
  unfold schema_tests, fields_consulted.
  destruct (json response) as [response_json|]; [|by eexists].
  intros Hit. specialize (Hit response_json eq_refl).
  assert (∀ b, (b && match required_fields cfg with
                     | Some (_ :: _) => true
                     | _ => false
                     end = true → iterable response_json = true) →
               b = true →
    ∃ checked,
      match required_fields cfg with
      | Some (f :: fs) =>
          missing ← missing_fields (f :: fs) response_json;
          Ok [ passed_test "Required fields check"
                 (bool_decide (missing = []))
                 (if bool_decide (missing = []) then "All fields present"
                  else "Missing: " ++ join ", " missing) ]
      | _ => Ok []
      end = Ok checked) as Hfields.
  { intros b Hb ->. destruct (required_fields cfg) as [[|f fs]|];
      try by eexists.
    destruct (missing_fields_iterable (f :: fs) response_json (Hb eq_refl))
      as [missing ->].
    by eexists. }
  destruct (expected_schema cfg) as [schema|]; [|by eapply Hfields].
  destruct (schema_truthy schema); [|by eapply Hfields].
  destruct (validate_schema _ _) as [valid msg]. by eexists.
Qed.

(** The one way out of [# Test 3]: a scalar body when the fields are
    consulted. *)
Lemma schema_tests_raises cfg response response_json :
  json response = Some response_json →
  fields_consulted cfg = true →
  iterable response_json = false →
  schema_tests cfg response =
  Raise (TypeError ("argument of type '"
                    ++ type_name (type_of response_json)
                    ++ "' is not iterable")).
Proof.
  unfold schema_tests, fields_consulted. intros -> Hc Hit.
  apply andb_true_iff in Hc as [Hschema Hfields].
  destruct (required_fields cfg) as [[|f fs]|]; try done.
  rewrite (missing_fields_scalar f fs response_json Hit).
  destruct (expected_schema cfg) as [schema|]; [|done].
  by destruct (schema_truthy schema).
Qed.

(** C7. For an endpoint declared with [authentication_required] the
    repeated request has the method, URL, payload and timeout of the first
    and its headers except the one named exactly [Authorization].  When the
    first request answers (and the body can be searched for the required
    fields) the result has exactly one test named "Auth enforcement"; it
    passes exactly when the repeated request answers 401 or 403 or raises;
    when the repeated request answers 200 it fails with the message
    "Endpoint allowed unauthorized access", and so does the endpoint.  When
    the first request raises a [requests] exception the request is not
    repeated: the only test is the failing "Network connectivity". *)
Theorem auth_enforcement_after_answered_request self cfg w :
  authentication_required cfg = true →
  let request := primary_request self cfg w in
  let repeated := no_auth_request self cfg w in
  (method repeated = method request ∧ url repeated = url request ∧
   payload repeated = payload request ∧ timeout repeated = timeout request ∧
   req_headers repeated !! "Authorization" = None ∧
   req_headers repeated !! "authorization"
     = req_headers request !! "authorization" ∧
   ∀ k, k ≠ "Authorization" →
        req_headers repeated !! k = req_headers request !! k) ∧
  (∀ response,
     w_primary w request = Responded response →
     (∀ response_json, json response = Some response_json →
        fields_consulted cfg = true → iterable response_json = true) →
     ∃ res test,
       validate_endpoint self cfg w = Ok res ∧
       filter (λ t, t_name t = Some "Auth enforcement") (r_tests res)
         = [test] ∧
       (t_passed test = PBool true ↔
          match w_unauthenticated w repeated with
          | Responded no_auth_res =>
              status_code no_auth_res = 401%Z
              ∨ status_code no_auth_res = 403%Z
          | Raised _ => True
          end) ∧
       (∀ no_auth_res,
          w_unauthenticated w repeated = Responded no_auth_res →
          status_code no_auth_res = 200%Z →
          t_passed test = PBool false ∧
          t_message test = Some "Endpoint allowed unauthorized access" ∧
          r_passed res = false)) ∧
  (∀ what,
     w_primary w request = Raised (RequestException what) →
     ∃ res,
       validate_endpoint self cfg w = Ok res ∧
       r_tests res = [ passed_test "Network connectivity" false
                         ("Request failed: " ++ what) ] ∧
       filter (λ t, t_name t = Some "Auth enforcement") (r_tests res) = []).
Proof.
  intros Hauth request repeated. split_and!.
  - done.
  - done.
  - done.
  - done.
  - subst repeated. unfold no_auth_request. cbn [req_headers].
    rewrite no_auth_headers_lookup. by rewrite bool_decide_eq_true_2.
  - subst repeated request. unfold no_auth_request, primary_request.
    cbn [req_headers]. rewrite no_auth_headers_lookup.
    by rewrite bool_decide_eq_false_2.
  - intros k Hk. subst repeated request.
    unfold no_auth_request, primary_request. cbn [req_headers].
    rewrite no_auth_headers_lookup. by rewrite bool_decide_eq_false_2.
  - intros response Hp Hbody.
    destruct (schema_tests_returns cfg response Hbody) as [checked Hs].
    destruct (validate_endpoint_responded self cfg w response checked Hp Hs)
      as (res & Hres & _ & Hpassed & tracking & status & content & sla
          & Htests & Hn1 & Hn2 & Hn3 & Hn4).
    assert (auth_tests self cfg w = [auth_test (w_unauthenticated w repeated)])
      as Hat by (unfold auth_tests; by rewrite Hauth).
    rewrite Hat in Htests.
    exists res, (auth_test (w_unauthenticated w repeated)).
    split; [exact Hres|]. split_and!.
    + rewrite Htests, !filter_app.
      rewrite (filter_auth_checked checked) by (by eapply schema_tests_names).
      rewrite !filter_cons_False by (rewrite ?Hn1, ?Hn2, ?Hn3, ?Hn4; discriminate).
      rewrite filter_cons_True by apply auth_test_name.
      rewrite filter_cons_False by (rewrite Hn4; discriminate).
      by rewrite !filter_nil.
    + destruct (w_unauthenticated w repeated) as [no_auth_res|e];
        [|done].
      unfold auth_test, passed_test. cbn [t_passed].
      case_bool_decide as Hcode; by split.
    + intros no_auth_res Hr H200. rewrite Hr.
      unfold auth_test. rewrite bool_decide_eq_false_2 by lia.
      split_and!; [done..|].
      rewrite Hpassed. apply not_true_is_false. intros Hall.
      apply all_passed_elem with (test := auth_test (Responded no_auth_res))
        in Hall.
      * unfold auth_test in Hall.
        rewrite bool_decide_eq_false_2 in Hall by lia. discriminate.
      * rewrite Htests, Hr. set_solver.
  - intros what Hp. unfold validate_endpoint. fold request. rewrite Hp.
    eexists. split; [reflexivity|]. cbn [r_tests]. split; [done|].
    by rewrite filter_cons_False by discriminate.
Qed.

(** [validate_endpoint] returns a result record whenever the request
    answers or raises a [requests] exception and the decoded body, when
    [required_fields] is consulted, is a dict, a list or a string.  A
    [requests] exception of that request gives the single failing test
    "Network connectivity"; an exception of the request repeated without
    credentials gives the passing test "Connection refused without
    auth". *)
Theorem validate_endpoint_converts_request_exception self cfg w :
  (∀ e, w_primary w (primary_request self cfg w) = Raised e →
        ∃ what, e = RequestException what) →
  (∀ response response_json,
     w_primary w (primary_request self cfg w) = Responded response →
     json response = Some response_json →
     fields_consulted cfg = true → iterable response_json = true) →
  ∃ res, validate_endpoint self cfg w = Ok res ∧
    (∀ what,
       w_primary w (primary_request self cfg w)
         = Raised (RequestException what) →
       r_passed res = false ∧
       r_tests res = [ passed_test "Network connectivity" false
                         ("Request failed: " ++ what) ] ∧
       r_error res = Some what) ∧
    (∀ response e,
       w_primary w (primary_request self cfg w) = Responded response →
       authentication_required cfg = true →
       w_unauthenticated w (no_auth_request self cfg w) = Raised e →
       filter (λ t, t_name t = Some "Auth enforcement") (r_tests res)
         = [ passed_test "Auth enforcement" true
               "Connection refused without auth" ]).
Proof.
  intros Hexc Hbody.
  destruct (w_primary w (primary_request self cfg w)) as [response|e] eqn:Hp.
  - destruct (schema_tests_returns cfg response) as [checked Hs];
      [intros response_json; by apply Hbody|].
    destruct (validate_endpoint_responded self cfg w response checked Hp Hs)
      as (res & Hres & _ & _ & tracking & status & content & sla
          & Htests & Hn1 & Hn2 & Hn3 & Hn4).
    exists res. split; [exact Hres|]. split; [done|].
    intros ? e _ Hauth Hu. rewrite Htests.
    unfold auth_tests. rewrite Hauth, Hu. cbn [auth_test].
    rewrite !filter_app.
    rewrite (filter_auth_checked checked) by (by eapply schema_tests_names).
    rewrite !filter_cons_False by (rewrite ?Hn1, ?Hn2, ?Hn3; discriminate).
    rewrite filter_cons_True by done.
    rewrite filter_cons_False by (rewrite Hn4; discriminate).
    by rewrite !filter_nil.
  - destruct (Hexc e eq_refl) as [what ->].
    unfold validate_endpoint. rewrite Hp. eexists. split; [reflexivity|].
    split; [|done]. intros what' [= <-]. by cbn [r_passed r_tests r_error].
Qed.

(** C3. A [TypeError] leaves [validate_endpoint]: when the answer decodes
    to a number, a boolean or [null] and the required fields are looked for
    in it, [f not in response_json] raises, nothing in [validate_endpoint]
    or [validate_endpoints] catches it, and no result record is produced.
    A [requests] exception of the request, on the other hand, is turned
    into the single failing test "Network connectivity". *)
Theorem validate_endpoint_lets_type_error_escape :
  (∀ self cfg w response response_json,
     w_primary w (primary_request self cfg w) = Responded response →
     json response = Some response_json →
     fields_consulted cfg = true → iterable response_json = false →
     let e := TypeError ("argument of type '"
                         ++ type_name (type_of response_json)
                         ++ "' is not iterable") in
     validate_endpoint self cfg w = Raise e ∧
     ∀ others world, world 0%nat = w →
       validate_endpoints self (cfg :: others) world = Raise e) ∧
  (validate_endpoint example_validator example_fields_config
     example_scalar_world
     = Raise (TypeError "argument of type 'int' is not iterable") ∧
   validate_api_endpoints "http://app/" (Some "s3cret")
     (Some [example_fields_config]) false
     {| w_head := example_probes; w_endpoint := λ _, example_scalar_world |}
     = Raise (TypeError "argument of type 'int' is not iterable")) ∧
  (∀ self cfg w what,
     w_primary w (primary_request self cfg w)
       = Raised (RequestException what) →
     ∃ res, validate_endpoint self cfg w = Ok res ∧
       r_passed res = false ∧
       r_tests res = [ passed_test "Network connectivity" false
                         ("Request failed: " ++ what) ] ∧
       r_error res = Some what).
Proof.
  assert (∀ self cfg w response response_json,
     w_primary w (primary_request self cfg w) = Responded response →
     json response = Some response_json →
     fields_consulted cfg = true → iterable response_json = false →
     validate_endpoint self cfg w =
     Raise (TypeError ("argument of type '"
                       ++ type_name (type_of response_json)
                       ++ "' is not iterable"))) as Hraise.
  { intros self cfg w response response_json Hp Hj Hc Hit.
    unfold validate_endpoint. rewrite Hp.
    by rewrite (schema_tests_raises cfg response response_json Hj Hc Hit). }
  split_and!.
  - intros self cfg w response response_json Hp Hj Hc Hit e.
    split; [by eapply Hraise|].
    intros others world Hw. unfold validate_endpoints.
    cbn [validate_each]. rewrite Hw.
    by rewrite (Hraise self cfg w response response_json Hp Hj Hc Hit).
  - by apply (Hraise _ _ _ (json_response 200 (JInt 42)) (JInt 42)).
  - unfold validate_api_endpoints, validate_endpoints. cbn [validate_each w_endpoint].
    by rewrite (Hraise _ example_fields_config example_scalar_world
                  (json_response 200 (JInt 42)) (JInt 42)).
  - intros self cfg w what Hp. unfold validate_endpoint. rewrite Hp.
    by eexists.
Qed.

(** C6. [discover_api_endpoints] keeps, in the order of [common_paths], the
    paths whose probe answers with a status below 404; a probe that raises
    is passed over, and so is one that answers 500, which is not a 404.
    The configurations built from the discovered paths all have
    [authentication_required] false. *)
Theorem discovery_keeps_statuses_below_404 :
  (∀ self head path,
     path ∈ discover_api_endpoints self head ↔
     path ∈ common_paths ∧
     ∃ response, head (probe_request self path) = Responded response ∧
                 (status_code response < 404)%Z) ∧
  ("/api/orders" ∈ common_paths ∧
   example_probes (probe_request example_validator "/api/orders")
     = Responded (example_status 500) ∧
   discover_api_endpoints example_validator example_probes = ["/health"]) ∧
  (∀ self head,
     Forall (λ cfg, authentication_required cfg = false)
            (discovered_config <$> discover_api_endpoints self head)).
Proof.
  split_and!.
  - intros self head path. unfold discover_api_endpoints.
    rewrite list_elem_of_filter. split.
    + intros [Hk Hin]. split; [exact Hin|].
      destruct (head (probe_request self path)) as [response|e];
        [|done].
      exists response. split; [done|]. by apply bool_decide_unpack in Hk.
    + intros [Hin (response & Hr & Hlt)]. split; [|exact Hin].
      rewrite Hr. by apply bool_decide_pack.
  - set_solver.
  - by vm_compute.
  - by vm_compute.
  - intros self head. apply Forall_fmap, Forall_true. done.
Qed.

End endpoints.

Section endpoint_instances.
Import validate_production_readiness api_validator.
#[local] Existing Instance exact_text.

(** [/api/users] against a service that answers 200 without credentials. *)
Lemma auth_enforcement_after_answered_request_witness :
  authentication_required example_auth_config = true ∧
  ∃ res test,
    validate_endpoint example_validator example_auth_config example_open_world
      = Ok res ∧
    filter (λ t, t_name t = Some "Auth enforcement") (r_tests res) = [test] ∧
    t_passed test = PBool false ∧
    t_message test = Some "Endpoint allowed unauthorized access".
Proof.
  split; [reflexivity|].
  destruct (auth_enforcement_after_answered_request
              example_validator example_auth_config example_open_world
              eq_refl)
    as (_ & Hanswered & _).
  destruct (Hanswered (json_response 200 (JDict [("id", JInt 1)])) eq_refl)
    as (res & test & Hres & Hfilter & _ & H200).
  { intros response_json _ [=]. }
  exists res, test. split; [exact Hres|]. split; [exact Hfilter|].
  destruct (H200 (json_response 200 (JDict [("id", JInt 1)])) eq_refl eq_refl)
    as (Hp & Hm & _).
  by split.
Defined.

(** Against the reading that the request is repeated for every endpoint
    declared with [authentication_required]: when the service is down the
    request is made once, and the result has no "Auth enforcement" test. *)
Lemma auth_enforcement_absent_when_service_is_down :
  authentication_required example_auth_config = true ∧
  ∃ res,
    validate_endpoint example_validator example_auth_config example_down_world
      = Ok res ∧
    r_tests res = [ passed_test "Network connectivity" false
                      "Request failed: Connection refused" ] ∧
    filter (λ t, t_name t = Some "Auth enforcement") (r_tests res) = [].
Proof.
  split; [reflexivity|].
  eexists. split; [reflexivity|]. split; [reflexivity|].
  cbn [r_tests]. by rewrite filter_cons_False by discriminate.
Qed.

(** [/api/users] against a service that is down. *)
Lemma validate_endpoint_converts_request_exception_witness :
  ∃ res,
    validate_endpoint example_validator example_auth_config example_down_world
      = Ok res ∧
    r_passed res = false ∧
    r_tests res = [ passed_test "Network connectivity" false
                      "Request failed: Connection refused" ].
Proof.
  destruct (validate_endpoint_converts_request_exception
              example_validator example_auth_config example_down_world)
    as (res & Hres & Hdown & _).
  - intros e [= <-]. by eexists.
  - intros response response_json [=].
  - exists res. split; [exact Hres|].
    destruct (Hdown "Connection refused" eq_refl) as (Hpassed & Htests & _).
    by split.
Defined.

(** Against the reading that every exception of an outbound call ends as a
    failing test inside the checker: a body that is the number 42, with
    [required_fields] given, lets a [TypeError] out of [validate_endpoint];
    and a timeout of the request repeated without credentials leaves the
    endpoint passed, with all its tests passing. *)
Lemma validate_endpoint_lets_exceptions_through :
  validate_endpoint example_validator example_fields_config example_scalar_world
    = Raise (TypeError "argument of type 'int' is not iterable")
  ∧ ∃ res,
      validate_endpoint example_validator example_auth_config
        example_silent_world = Ok res ∧
      r_passed res = true ∧
      Forall (λ t, t_passed t = PBool true) (r_tests res) ∧
      passed_test "Auth enforcement" true "Connection refused without auth"
        ∈ r_tests res.
Proof.
  split; [by vm_compute|].
  eexists. split; [by vm_compute|].
  split; [by vm_compute|]. split.
  - repeat constructor.
  - set_solver.
Qed.

End endpoint_instances.

(** ** The environment validator *)

Section env.
Import validate_production_readiness env_validator.

Lemma tallied_refl r : tallied 0 r r.
Proof. unfold tallied. lia. Qed.

Lemma tallied_trans n m r1 r2 r3 :
  tallied n r1 r2 → tallied m r2 r3 → tallied (n + m) r1 r3.
Proof. unfold tallied. lia. Qed.

Lemma record_test_tallied test passed r : tallied 1 r (record_test test passed r).
Proof.
  unfold tallied, record_test. cbn [e_total e_tests e_passed_tests e_failed_tests].
  rewrite length_app. destruct passed; simpl; lia.
Qed.

Lemma check_variable_tallied env_vars is_production r item :
  tallied 1 r (check_variable env_vars is_production r item).
Proof.
  unfold check_variable. destruct item as [var_name rule].
  destruct (mjoin (env_vars !! var_name)) as [[|c rest]|].
  - destruct (rule_required rule); apply record_test_tallied.
  - destruct (validate_type _ _) as [is_valid msg].
    destruct (_ && str_in _ _); destruct (rule_prod_require rule);
      try destruct (_ && negb _); apply record_test_tallied.
  - destruct (rule_required rule); apply record_test_tallied.
Qed.

Lemma check_variables_tallied env_vars is_production rules :
  ∀ r, tallied (length rules) r
         (foldl (check_variable env_vars is_production) r rules).
Proof.
  induction rules as [|item rules IH]; intros r; [apply tallied_refl|].
  cbn [foldl length]. change (S (length rules)) with (1 + length rules).
  eapply tallied_trans; [apply check_variable_tallied|apply IH].
Qed.

Lemma check_section_tallied required env_sections env_vars is_production r item :
  tallied (if bool_decide (item.1 ∉ required) then 0 else S (length item.2))
    r (check_section required env_sections env_vars is_production r item).
Proof.
  unfold check_section. destruct item as [section_name section_rules].
  cbn [fst snd]. case_bool_decide; [apply tallied_refl|].
  change (S (length section_rules)) with (1 + length section_rules).
  eapply tallied_trans; [apply record_test_tallied|].
  apply check_variables_tallied.
Qed.

Lemma check_sections_tallied required env_sections env_vars is_production schema :
  ∀ r, tallied
         (sum_list_with
            (λ item, if bool_decide (item.1 ∉ required) then 0
                     else S (length item.2)) schema)
         r
         (foldl (check_section required env_sections env_vars is_production)
                r schema).
Proof.
  induction schema as [|item schema IH]; intros r; [apply tallied_refl|].
  cbn [foldl sum_list_with].
  eapply tallied_trans; [apply check_section_tallied|apply IH].
Qed.

(** C5. Only a missing file ends the check at once, with the single
    failing test "File existence check" and a total of 1.  A file that
    exists is checked in full whatever it holds (unless [ENVIRONMENT] is
    given without a value): one test per required section and one per
    variable of these sections, each appended and counted once as passed
    or failed. *)
Theorem validate_env_file_stops_only_when_missing
    env_file_path required_sections content env_vars :
  env_vars !! "ENVIRONMENT" ≠ Some None →
  let missing := validate_env_file env_file_path required_sections Missing in
  let present :=
    validate_env_file env_file_path required_sections
      (Readable content env_vars) in
  (e_tests missing =
     [ env_test "File existence check" "FAIL"
         ("Environment file " ++ env_file_path ++ " does not exist") ] ∧
   e_total missing = 1 ∧ e_failed_tests missing = 1 ∧
   e_passed_tests missing = 0 ∧ e_passed missing = false) ∧
  (e_total present =
     expected_tests (default (ENV_SCHEMA.*1) required_sections) ∧
   length (e_tests present) = e_total present ∧
   e_passed_tests present + e_failed_tests present = e_total present ∧
   e_error present = None ∧
   (e_passed present = true ↔ e_failed_tests present = 0)).
Proof.
  intros Henv missing present. split; [done|].
  subst present. unfold validate_env_file.
  set (required := default (ENV_SCHEMA.*1) required_sections).
  destruct (env_vars !! "ENVIRONMENT") as [[environment|]|] eqn:He; [|done|].
  all: match goal with
       | |- context [foldl ?f initial_results ENV_SCHEMA] =>
           destruct (check_sections_tallied required
                       (parse_env_sections content) env_vars
                       (bool_decide
                          (lower (default "" (mjoin (env_vars !! "ENVIRONMENT")))
                           = "production"))
                       ENV_SCHEMA initial_results) as (Ht & Hl & Hc);
           rewrite He in Ht, Hl, Hc;
           generalize dependent (foldl f initial_results ENV_SCHEMA)
       end.
  all: intros results Ht Hl Hc;
    cbn [e_total e_tests e_passed_tests e_failed_tests e_error e_passed];
    cbn [initial_results e_total e_tests e_passed_tests e_failed_tests length]
      in Ht, Hl, Hc;
    unfold expected_tests; split_and!; [lia | lia | lia | done |];
    by rewrite bool_decide_eq_true.
Qed.

(** A blank file: nothing in it, nothing loaded from it. *)
Lemma validate_env_file_stops_only_when_missing_witness :
  (∅ : gmap string (option string)) !! "ENVIRONMENT" ≠ Some None ∧
  e_total (validate_env_file ".env" None blank_file) = 28.
Proof.
  assert ((∅ : gmap string (option string)) !! "ENVIRONMENT" ≠ Some None)
    as Henv by done.
  split; [exact Henv|].
  destruct (validate_env_file_stops_only_when_missing ".env" None "" ∅ Henv)
    as (_ & Ht & _).
  unfold blank_file. rewrite Ht. reflexivity.
Defined.

(** Against the reading that a blank file ends the check with one failing
    test: for a file that exists and is empty the six section checks and
    the twenty-two variable checks all run. *)
Lemma blank_env_file_is_checked_in_full :
  let results := validate_env_file ".env" None blank_file in
  e_total results = 28 ∧ length (e_tests results) = 28 ∧
  e_failed_tests results = 21 ∧ e_passed_tests results = 7 ∧
  e_tests results !! 1%nat =
    Some (env_test "Variable presence: ENVIRONMENT" "FAIL"
            "Mandatory variable ENVIRONMENT is missing").
Proof. by vm_compute. Qed.

End env.

(** ** Further properties of the load tester *)

Section load_tester_more.
Import validate_production_readiness load_tester.
Context {float_text : FloatText}.

#[local] Instance Qle_total : Total Qle.
Proof.
  intros x y. destruct (Qlt_le_dec x y) as [H|H]; [left|right]; [|done].
  by apply Qlt_le_weak.
Qed.







(** [discover_endpoints] never returns an empty list: it keeps the common
    paths whose probe answers below 400 and, when there is none, returns
    the root path alone. *)
Theorem discover_endpoints_falls_back_to_root base_url head :
  let kept path :=
    answers_below 400 (head (rstrip_slash base_url ++ path)) = true in
  let discovered := discover_endpoints base_url head in
  discovered ≠ [] ∧
  (∀ path, path ∈ common_paths → (path ∈ discovered ↔ kept path)) ∧
  (discovered = ["/"] ↔ ∀ path, path ∈ common_paths → ¬ kept path).
Proof.
  intros kept discovered. subst discovered. unfold discover_endpoints.
  assert ("/" ∉ common_paths) as Hroot
    by (apply (bool_decide_unpack _); by vm_compute).
  set (found := filter _ common_paths).
  assert (∀ path, path ∈ found ↔ kept path ∧ path ∈ common_paths) as Hfound.
  { intros path. subst found kept. rewrite list_elem_of_filter.
    by rewrite Is_true_true. }
  case_bool_decide as Hnil.
  - split_and!; [done| |].
    + intros path Hin. split.
      * intros Hp%list_elem_of_singleton. by subst.
      * intros Hk. assert (path ∈ found) as Hf by (by apply Hfound).
        rewrite Hnil in Hf. by apply not_elem_of_nil in Hf.
    + split; [|done]. intros _ path Hin Hk.
      assert (path ∈ found) as Hf by (by apply Hfound).
      rewrite Hnil in Hf. by apply not_elem_of_nil in Hf.
  - split_and!; [done| |].
    + intros path Hin. rewrite Hfound. tauto.
    + split.
      * intros Heq. assert ("/" ∈ found) as Hin by (rewrite Heq; by left).
        apply Hfound in Hin as [_ Hin]. done.
      * intros Hnone. assert (∃ path, path ∈ found) as [path Hin].
        { destruct found as [|path rest]; [done|]. exists path. by left. }
        apply Hfound in Hin as [Hk Hin]. by destruct (Hnone path Hin).
Qed.

(** With the base URL answering, a number of users that is not positive or
    a duration of zero ends the load test in the outer handler: no test is
    recorded, and the error is the executor's or the division's. *)
Theorem run_load_test_reports_bad_parameters
    base_url num_users duration max_response_time endpoints w response :
  base_get w = Responded response →
  (num_users <= 0)%Z ∨ duration = 0%Z →
  let results :=
    run_load_test base_url num_users duration max_response_time endpoints w in
  lt_tests results = [] ∧ lt_total results = 0 ∧ lt_passed results = false ∧
  lt_metrics results = None ∧
  lt_error results =
    Some (if bool_decide (num_users <= 0)%Z
          then "max_workers must be greater than 0"
          else "division by zero").
Proof.
  intros Hbase Hbad results. subst results. unfold run_load_test.
  rewrite Hbase. unfold measure. case_bool_decide as Hn; [done|].
  destruct Hbad as [Hbad | ->]; [done|].
  destruct (combine_sums
    (collect base_url (choose_endpoints base_url endpoints w) w))
    as (times & errs & ->).
  destruct (compute_statistics_total times) as (st & -> & _).
  done.
Qed.

End load_tester_more.

Section load_tester_more_instances.
Import validate_production_readiness load_tester.
#[local] Existing Instance exact_text.



Lemma run_load_test_reports_bad_parameters_witness :
  lt_error (run_load_test "http://app/" 2 0 500 None example_world)
    = Some "division by zero" ∧
  lt_tests (run_load_test "http://app/" 2 0 500 None example_world) = [].
Proof.
  destruct (run_load_test_reports_bad_parameters "http://app/" 2 0 500 None
              example_world (example_response 200) eq_refl)
    as (Htests & _ & _ & _ & Herr); [by right|].
  by split.
Defined.

End load_tester_more_instances.

(** ** Further properties of the endpoint validator *)

Section endpoints_more.
Import validate_production_readiness api_validator.
Context {float_text : FloatText}.

Lemma validate_each_length self endpoints world :
  ∀ i rs, validate_each self endpoints world i = Ok rs →
          length rs = length endpoints.
Proof.
  induction endpoints as [|cfg rest IH]; intros i rs; cbn [validate_each].
  - by intros [= <-].
  - destruct (validate_endpoint self cfg (world i)) as [r|e]; [|done].
    cbn [mbind result_bind].
    destruct (validate_each self rest world (S i)) as [others|e] eqn:He;
      [|done].
    cbn [mbind result_bind]. intros [= <-]. cbn [length]. f_equal.
    by eapply IH.
Qed.

Lemma length_filter_all {A} (P : A → Prop) `{∀ x, Decision (P x)} (l : list A) :
  length (filter P l) = length l ↔ Forall P l.
Proof.
  induction l as [|x l IH]; [by split|].
  rewrite filter_cons, Forall_cons. destruct (decide (P x)) as [Hx|Hx].
  - cbn [length]. rewrite <- IH. split; [intros [= ?]; by split|].
    intros [_ ->]. done.
  - pose proof (length_filter P l). cbn [length]. split; [lia|tauto].
Qed.

Lemma filter_none {A} (P : A → Prop) `{∀ x, Decision (P x)} (l : list A) :
  (∀ x, x ∈ l → ¬ P x) → filter P l = [].
Proof.
  induction l as [|x l IH]; intros Hl; [done|].
  rewrite filter_cons_False by (apply Hl; by left).
  apply IH. intros y Hy. apply Hl. by right.
Qed.

(** [validate_endpoints], when it returns, has one result per configured
    endpoint, counts the endpoints that passed, and passes exactly when
    every endpoint passed. *)
Theorem validate_endpoints_passes_iff_every_endpoint_passes
    self endpoints world v :
  validate_endpoints self endpoints world = Ok v →
  v_total v = length endpoints ∧
  length (v_endpoints v) = length endpoints ∧
  passed_endpoints v = length (filter (λ r, r_passed r = true) (v_endpoints v)) ∧
  (passed_endpoints v ≤ v_total v)%nat ∧
  (v_passed v = true ↔ Forall (λ r, r_passed r = true) (v_endpoints v)).
Proof.
  unfold validate_endpoints.
  destruct (validate_each self endpoints world 0) as [rs|e] eqn:He; [|done].
  cbn [mbind result_bind]. intros [= <-].
  cbn [v_total v_endpoints passed_endpoints v_passed].
  apply validate_each_length in He.
  pose proof (length_filter (λ r, r_passed r = true) rs) as Hle.
  split_and!; [done|done|done|lia|].
  rewrite bool_decide_eq_true, <- He. apply length_filter_all.
Qed.

(** When no probe answers below 404 nothing is discovered, and the
    automatic validation passes with no endpoint checked. *)
Theorem auto_validate_passes_when_nothing_is_discovered self w :
  (∀ path, path ∈ common_paths →
     probe_keeps (w_head w (probe_request self path)) = false) →
  auto_validate_endpoints self w =
  Ok {| v_base_url := self_base_url self; v_passed := true; v_total := 0;
        passed_endpoints := 0; v_endpoints := [] |}.
Proof.
  intros Hnone. unfold auto_validate_endpoints, discover_api_endpoints.
  rewrite filter_none; [done|].
  intros path Hin. rewrite (Hnone path Hin). by intros [].
Qed.

Lemma setdefault_lookup key value d k :
  setdefault key value d !! k =
  if bool_decide (k = key) then Some (default value (d !! key)) else d !! k.
Proof.
  unfold setdefault. case_bool_decide as Hk.
  - subst k. destruct (d !! key) as [x|] eqn:Hd; [by rewrite Hd|].
    by rewrite lookup_insert_eq.
  - destruct (d !! key) as [x|] eqn:Hd; [done|].
    by rewrite lookup_insert_ne.
Qed.

(** The headers of a new validator: the caller's, with [Content-Type] and
    [Accept] defaulting to JSON (a value the caller gave is kept), and with
    [Authorization] replaced by the bearer token when a token that is not
    empty is given. *)
Theorem validator_headers base_url auth_token headers timeout sla_ms :
  let given := default ∅ headers in
  let self :=
    APIEndpointValidator_init base_url auth_token headers timeout sla_ms in
  self_headers self !! "Content-Type"
    = Some (default "application/json" (given !! "Content-Type")) ∧
  self_headers self !! "Accept"
    = Some (default "application/json" (given !! "Accept")) ∧
  self_headers self !! "Authorization"
    = match auth_token with
      | Some token =>
          if bool_decide (token = "") then given !! "Authorization"
          else Some ("Bearer " ++ token)
      | None => given !! "Authorization"
      end ∧
  (∀ k, k ≠ "Content-Type" → k ≠ "Accept" → k ≠ "Authorization" →
        self_headers self !! k = given !! k) ∧
  self_base_url self = rstrip_slash base_url.
Proof.
  intros given self. subst self. unfold APIEndpointValidator_init.
  cbn [self_headers self_base_url]. fold given.
  set (defaults := setdefault "Accept" "application/json"
                     (setdefault "Content-Type" "application/json" given)).
  assert (∀ k, defaults !! k =
    if bool_decide (k = "Accept")
    then Some (default "application/json" (given !! "Accept"))
    else if bool_decide (k = "Content-Type")
    then Some (default "application/json" (given !! "Content-Type"))
    else given !! k) as Hd.
  { intros k. subst defaults. rewrite !setdefault_lookup.
    by rewrite (bool_decide_eq_false_2 ("Accept" = "Content-Type")). }
  assert (∀ k, k ≠ "Authorization" →
    match auth_token with
    | Some token =>
        if bool_decide (token = "") then defaults
        else <["Authorization" := "Bearer " ++ token]> defaults
    | None => defaults
    end !! k = defaults !! k) as Hother.
  { intros k Hk. destruct auth_token as [token|]; [|done].
    case_bool_decide; [done|]. by rewrite lookup_insert_ne. }
  split_and!.
  - rewrite Hother by done. rewrite Hd.
    rewrite bool_decide_eq_false_2 by done.
    by rewrite bool_decide_eq_true_2.
  - rewrite Hother by done. rewrite Hd. by rewrite bool_decide_eq_true_2.
  - destruct auth_token as [token|].
    + case_bool_decide.
      * rewrite Hd. by rewrite !bool_decide_eq_false_2.
      * by rewrite lookup_insert_eq.
    + rewrite Hd. by rewrite !bool_decide_eq_false_2.
  - intros k H1 H2 H3. rewrite Hother by done. rewrite Hd.
    by rewrite !bool_decide_eq_false_2.
  - done.
Qed.

(** Where [validate_schema] is lenient: of a list schema only the first
    element is used and an empty one accepts every list; an empty dict
    schema accepts every dict; a schema that is neither a type, a list nor
    a dict accepts everything; and a boolean passes for an [int]. *)
Theorem validate_schema_lenient_cases :
  (∀ data item_schema rest,
     validate_schema data (SList (item_schema :: rest))
     = validate_schema data (SList [item_schema])) ∧
  (∀ items, validate_schema (JList items) (SList []) = (true, "")) ∧
  (∀ d, validate_schema (JDict d) (SDict []) = (true, "")) ∧
  (∀ data truthy, validate_schema data (SOther truthy) = (true, "")) ∧
  (∀ b, validate_schema (JBool b) (SType T_int) = (true, "")).
Proof.
  split_and!.
  - intros data item_schema rest. by destruct data.
  - done.
  - done.
  - intros data truthy. by destruct data.
  - done.
Qed.

End endpoints_more.

Section endpoints_more_instances.
Import validate_production_readiness api_validator.
#[local] Existing Instance exact_text.

(** [/api/users], open to everybody, as the only endpoint. *)
Lemma validate_endpoints_passes_iff_every_endpoint_passes_witness :
  ∃ v,
    validate_endpoints example_validator [example_auth_config]
      (λ _, example_open_world) = Ok v ∧
    v_total v = 1 ∧
    (v_passed v = true ↔ Forall (λ r, r_passed r = true) (v_endpoints v)).
Proof.
  destruct (validate_endpoints example_validator [example_auth_config]
              (λ _, example_open_world)) as [v|e] eqn:Hv;
    [|by vm_compute in Hv].
  exists v. split; [done|].
  destruct (validate_endpoints_passes_iff_every_endpoint_passes _ _ _ _ Hv)
    as (Ht & _ & _ & _ & Hiff).
  by split.
Defined.

(** A service that answers no probe. *)
Lemma auto_validate_passes_when_nothing_is_discovered_witness :
  ∃ v,
    auto_validate_endpoints example_validator
      {| w_head := λ _, Raised (RequestException "Connection refused");
         w_endpoint := λ _, example_down_world |} = Ok v ∧
    v_passed v = true ∧ v_total v = 0.
Proof.
  eexists. split.
  - apply auto_validate_passes_when_nothing_is_discovered. by intros path _.
  - by split.
Defined.

End endpoints_more_instances.

(** ** Further properties of the environment validator *)

Section env_more.
Import validate_production_readiness env_validator.

Lemma split_not_nil sep s : split sep s ≠ [].
Proof.
  destruct s as [|c s]; [done|]. cbn [split].
  case_bool_decide; [done|]. by destruct (split sep s).
Qed.

(** The rule for lists can not fail: splitting at the commas always gives
    at least one piece. *)
Theorem validate_type_accepts_every_list value rule :
  rule_type rule = V_list →
  (validate_type value rule).1 = true.
Proof.
  intros Ht. unfold validate_type. rewrite Ht. cbn [fst].
  apply bool_decide_eq_true.
  pose proof (split_not_nil ","%char value) as Hs.
  destruct (split _ value); [done|simpl; lia].
Qed.

Lemma validate_type_accepts_every_list_witness :
  (validate_type "" (rule V_list true)).1 = true.
Proof. by apply validate_type_accepts_every_list. Defined.

(** The rule for integers holds exactly of the strings [int] accepts whose
    value is within the bounds the rule gives. *)
Theorem validate_type_int_within_bounds value rule :
  rule_type rule = V_int →
  ((validate_type value rule).1 = true ↔
   ∃ val, int_of_str value = Some val ∧
     (∀ min, rule_min rule = Some min → (min <= val)%Z) ∧
     (∀ max, rule_max rule = Some max → (val <= max)%Z)).
Proof.
  intros Ht. unfold validate_type. rewrite Ht.
  destruct (int_of_str value) as [val|]; [|split; [done|by intros (? & [=] & _)]].
  destruct (rule_min rule) as [min|], (rule_max rule) as [max|];
    repeat case_bool_decide; cbn [fst]; split; try done.
  all: try (intros _; exists val; split; [done|];
            split; intros ? [= <-]; lia).
  all: intros (val' & [= <-] & Hmin & Hmax);
    try specialize (Hmin _ eq_refl); try specialize (Hmax _ eq_refl); lia.
Qed.

Lemma validate_type_int_within_bounds_witness :
  (validate_type "70000" (int_rule 1 (Some 65535%Z))).1 = true ↔
  ∃ val, int_of_str "70000" = Some val ∧
    (∀ min, rule_min (int_rule 1 (Some 65535%Z)) = Some min → (min <= val)%Z) ∧
    (∀ max, rule_max (int_rule 1 (Some 65535%Z)) = Some max → (val <= max)%Z).
Proof. by apply validate_type_int_within_bounds. Defined.

Lemma env_test_pass name message : counted_passed (env_test name "PASS" message).
Proof. by left. Qed.

Lemma env_test_fail name message : counted_failed (env_test name "FAIL" message).
Proof. split; [intros [[=]|[=]] | by left]. Qed.

Lemma env_test_warning name message :
  counted_warned (env_test name "WARNING" message).
Proof.
  split_and!; [intros [[=]|[=]] | intros [_ [[=]|[=]]] | done].
Qed.

Lemma record_test_count (P : Test → Prop) `{∀ t, Decision (P t)} test passed r :
  count_if P (e_tests (record_test test passed r)) =
  count_if P (e_tests r) + (if decide (P test) then 1 else 0).
Proof.
  unfold record_test. cbn [e_tests].
  rewrite count_if_app, count_if_cons, count_if_nil. lia.
Qed.

Lemma record_test_agrees test passed r :
  classified passed test → agrees r → agrees (record_test test passed r).
Proof.
  unfold classified, agrees. intros Hc [Hf Hp].
  rewrite !record_test_count. unfold record_test.
  cbn [e_failed_tests e_passed_tests].
  unfold counted_warned, counted_failed in *.
  destruct passed;
    destruct (decide (counted_passed test)),
             (decide (¬ counted_passed test
                      ∧ (t_status test = PStr "FAIL"
                         ∨ t_passed test = PBool false))),
             (decide (¬ counted_passed test
                      ∧ ¬ (¬ counted_passed test
                           ∧ (t_status test = PStr "FAIL"
                              ∨ t_passed test = PBool false))
                      ∧ t_status test = PStr "WARNING"));
    try tauto; split; lia.
Qed.

Lemma check_variable_agrees env_vars is_production r item :
  agrees r → agrees (check_variable env_vars is_production r item).
Proof.
  intros Hr. unfold check_variable. destruct item as [var_name rule].
  assert (agrees
    (if rule_required rule then
       record_test
         (env_test ("Variable presence: " ++ var_name) "FAIL"
            ("Mandatory variable " ++ var_name ++ " is missing"))
         false r
     else
       record_test
         (env_test ("Variable presence: " ++ var_name) "PASS"
            ("Optional variable " ++ var_name ++ " is missing"))
         true r)) as Habsent.
  { destruct (rule_required rule); apply record_test_agrees; try done.
    - apply env_test_fail.
    - left. apply env_test_pass. }
  destruct (mjoin (env_vars !! var_name)) as [[|c rest]|]; try done.
  destruct (validate_type _ _) as [is_valid msg].
  set (checked1 := if _ && str_in _ _ then _ else _).
  destruct checked1 as [is_valid1 msg1].
  set (checked2 := match rule_prod_require rule with
                   | Some _ => _ | None => _ end).
  destruct checked2 as [is_valid2 msg2].
  apply record_test_agrees; [|done].
  destruct is_valid2; [left; apply env_test_pass|apply env_test_fail].
Qed.

Lemma check_section_agrees required env_sections env_vars is_production r item :
  agrees r →
  agrees (check_section required env_sections env_vars is_production r item).
Proof.
  intros Hr. unfold check_section. destruct item as [section_name rules].
  case_bool_decide; [done|].
  set (r1 := record_test _ true r).
  assert (agrees r1) as Hr1.
  { apply record_test_agrees; [|done]. unfold classified.
    case_bool_decide; [left; apply env_test_pass|right; apply env_test_warning]. }
  clearbody r1. revert r1 Hr1.
  induction rules as [|rule rules IH]; intros r1 Hr1; [done|].
  cbn [foldl]. apply IH. by apply check_variable_agrees.
Qed.

Lemma check_sections_agrees required env_sections env_vars is_production schema :
  ∀ r, agrees r →
       agrees (foldl (check_section required env_sections env_vars
                        is_production) r schema).
Proof.
  induction schema as [|item schema IH]; intros r Hr; [done|].
  cbn [foldl]. apply IH. by apply check_section_agrees.
Qed.

(** What the environment validator counts agrees with the orchestrator's
    tally of the same tests: its failed tests are the tests the tally
    counts as failed, its passed tests are those the tally counts as passed
    or as warnings (a missing section header is a warning that the
    validator counts as passed), and a result that passed has no test the
    tally counts as failed. *)
Theorem env_counts_agree_with_the_tally env_file_path required_sections file :
  let results := validate_env_file env_file_path required_sections file in
  count_if counted_failed (e_tests results) = e_failed_tests results ∧
  count_if counted_passed (e_tests results)
  + count_if counted_warned (e_tests results) = e_passed_tests results ∧
  (e_passed results = true → count_if counted_failed (e_tests results) = 0).
Proof.
  intros results. subst results. unfold validate_env_file.
  destruct file as [|e|content env_vars].
  - cbn [e_tests e_failed_tests e_passed_tests e_passed].
    rewrite !count_if_cons, !count_if_nil.
    pose proof (env_test_fail "File existence check"
      ("Environment file " ++ env_file_path ++ " does not exist")) as Hf.
    destruct (decide (counted_failed _)) as [_|Hn]; [|done].
    destruct Hf as [Hnp _].
    destruct (decide (counted_passed _)) as [Hp|_]; [done|].
    destruct (decide (counted_warned _)) as [(_ & Hnf & _)|_]; [|done].
    destruct Hnf. apply env_test_fail.
  - done.
  - set (required := default (ENV_SCHEMA.*1) required_sections).
    assert (∀ is_production,
      agrees (foldl (check_section required (parse_env_sections content)
                       env_vars is_production)
                    initial_results ENV_SCHEMA)) as Hall.
    { intros is_production. by apply check_sections_agrees. }
    destruct (env_vars !! "ENVIRONMENT") as [[environment|]|]; [|done|].
    all: match goal with
         | |- context [foldl (check_section _ _ _ ?b) _ _] =>
             destruct (Hall b) as [Hf Hp]
         end;
      cbn [e_tests e_failed_tests e_passed_tests e_passed];
      split_and!; [done|done|];
      intros Hpass%bool_decide_eq_true; by rewrite Hf.
Qed.

End env_more.

(** ** Further properties of the orchestrator *)

Section orchestrator_more.
Import validate_production_readiness.

(** [_get_remediation] answers with the advice of the first key, in the
    order of [advice_map], that occurs in the name of the test, and with
    the general advice when no key occurs; the message plays no part. *)
Theorem get_remediation_first_match test_name message :
  (∀ advice,
     lookup_advice advice_map test_name = Some advice ↔
     ∃ before key after,
       advice_map = (before ++ (key, advice) :: after)%list ∧
       str_in key test_name = true ∧
       Forall (λ entry, str_in entry.1 test_name = false) before) ∧
  _get_remediation test_name message =
    default "Refer to internal architectural standards for production readiness."
            (lookup_advice advice_map test_name) ∧
  (Forall (λ entry, str_in entry.1 test_name = false) advice_map →
   _get_remediation test_name message =
     "Refer to internal architectural standards for production readiness.").
Proof.
  assert (∀ m advice,
     lookup_advice m test_name = Some advice ↔
     ∃ before key after,
       m = (before ++ (key, advice) :: after)%list ∧
       str_in key test_name = true ∧
       Forall (λ entry, str_in entry.1 test_name = false) before) as Hfirst.
  { induction m as [|[key0 advice0] m IH]; intros advice.
    - split; [done|]. intros (before & key & after & Hm & _).
      by destruct before.
    - cbn [lookup_advice]. destruct (str_in key0 test_name) eqn:Hk.
      + split.
        * intros [= <-]. by exists [], key0, m.
        * intros (before & key & after & Hm & Hin & Hbefore).
          destruct before as [|entry before]; simplify_eq/=; [done|].
          apply Forall_cons in Hbefore as [Hb _].
          cbn [fst] in Hb. congruence.
      + rewrite IH. split.
        * intros (before & key & after & -> & Hin & Hbefore).
          exists ((key0, advice0) :: before), key, after.
          split_and!; [done|done|]. by constructor.
        * intros (before & key & after & Hm & Hin & Hbefore).
          destruct before as [|entry before]; simplify_eq/=; [congruence|].
          apply Forall_cons in Hbefore as [_ Hb].
          by exists before, key, after. }
  split_and!.
  - apply Hfirst.
  - done.
  - intros Hnone. unfold _get_remediation.
    destruct (lookup_advice advice_map test_name) as [advice|] eqn:Hl; [|done].
    apply Hfirst in Hl as (before & key & after & Hm & Hin & _).
    rewrite Hm in Hnone. apply Forall_app in Hnone as [_ Hn].
    apply Forall_cons in Hn as [Hn _]. cbn [fst] in Hn. congruence.
Qed.

(** The tally changes nothing of a test but its remediation, which it sets
    exactly for the tests it counts as failed or as warnings. *)
Theorem tally_attaches_remediation_to_failures_and_warnings self test :
  let test' := (count_test self test).2 in
  t_name test' = t_name test ∧ t_status test' = t_status test ∧
  t_passed test' = t_passed test ∧ t_message test' = t_message test ∧
  (counted_failed test ∨ counted_warned test →
   t_remediation test' =
     Some (_get_remediation (default "" (t_name test))
             (default "" (t_message test)))) ∧
  (¬ (counted_failed test ∨ counted_warned test) → test' = test).
Proof.
  intros test'. subst test'.
  destruct (classes_exhaustive test) as [Hp|[Hf|[Hw|Hu]]].
  - rewrite (count_test_passed self test Hp). cbn [snd].
    split_and!; try done. intros [[Hn _]|[Hn _]]; by destruct Hn.
  - rewrite (count_test_failed self test Hf). cbn [snd].
    split_and!; try done. intros Hn. destruct Hn. by left.
  - rewrite (count_test_warned self test Hw). cbn [snd].
    split_and!; try done. intros Hn. destruct Hn. by right.
  - rewrite (count_test_unclassified self test Hu). cbn [snd].
    apply unclassified_not_counted in Hu as (_ & Hnf & Hnw).
    split_and!; try done. by intros [?|?].
Qed.

End orchestrator_more.
